(** * Derived-data shaping of the host dashboard and the team editor

    A shallow embedding of the pure data-shaping functions of two React
    components:

    - [HostFees]: [getHostFeesWithoutShare], [dataToSeries],
      [getSeriesFromData] and [getActiveYearsOptions] of the host-fees report
      section;
    - [Members]: [getMembersFromProps], [getMembersCollectiveIds], the admin
      count of [renderSection] and the last-admin flag of [renderMember] of
      the team editor.

    Conventions.  A JS object with a fixed set of fields is a record; a field
    that may be missing ([undefined]) is an [option].  Integer amounts in
    minor units are [Z]; amounts in major units are JS numbers, taken here as
    exact rationals [Q] (the browser rounds [n / 100] to the nearest double).
    Doubles do not add exactly (0.2 + 0.1 is not 0.3), so the round trip of
    the aggregator is stated on the minor-unit amounts whose quotients the
    slots hold, not on sums of major-unit values.
    A JS object used as a dictionary is a [gmap]; an array is a [list]. *)

From Stdlib Require Import ZArith QArith Qround Lia Lqa Ascii String.
From stdpp Require Import base option list gmap strings fin finite pretty.

Local Open Scope Z_scope.

Module HostFees.

(** ** Data: the nodes of [hostMetricsTimeSeries] *)

(** [amount { value valueInCents currency }] *)
Record Amount := mkAmount {
  value : Q;
  valueInCents : Z;
  currency : string;
}.

(** A node of [hostFees.nodes] or of [hostFeeShare.nodes]; only the latter
    select a [settlementStatus], and [None] is a status that is [null]. *)
Record Node := mkNode {
  date : string;
  settlementStatus : option string;
  amount : Amount;
}.

(** [host.hostMetricsTimeSeries]; [None] is a path that lodash's [get]
    resolves to [undefined], a list is an array of nodes. *)
Record TimeSeries := mkTimeSeries {
  hostFees_nodes : option (list Node);
  hostFeeShare_nodes : option (list Node);
}.

(** One entry of the chart's [series] prop. *)
Record Series := mkSeries {
  name : string;
  data : list Q;
}.

(** [x || 0] on a dictionary read: [undefined] and [0] both give [0]. *)
Definition orZero (x : option Z) : Z :=
  match x with
  | Some t => if t =? 0 then 0 else t
  | None => 0
  end.

Section Aggregator.

(** [new Date(d).getMonth()]: [NaN] ([None]) for an invalid date, otherwise
    a month number from 0 to 11 in the browser's time zone.  The date parser
    and the time zone belong to the platform, so the function is a parameter. *)
Variable getMonth : string -> option (fin 12).

(** [i18nTransactionSettlementStatus(intl, status)], an imported helper. *)
Variable i18nTransactionSettlementStatus : string -> string.

Definition monthKey (node : Node) : option (fin 12) := getMonth (date node).

(** The reducer of [hostFeeShareNodes.reduce(..., {})]. *)
Definition addShare (result : gmap (option (fin 12)) Z) (node : Node)
  : gmap (option (fin 12)) Z :=
  <[monthKey node := orZero (result !! monthKey node) + valueInCents (amount node)]> result.

Definition totalHostFeeSharePerMonthInCents (hostFeeShareNodes : list Node)
  : gmap (option (fin 12)) Z :=
  foldl addShare ∅ hostFeeShareNodes.

(** The callback of [hostFeeNodes.map]: the spread copies every field, then
    [valueInCents] and [value] are overwritten. *)
Definition withoutShare (totals : gmap (option (fin 12)) Z) (node : Node) : Node :=
  match totals !! monthKey node with
  | Some t =>
      if t =? 0 then node
      else
        let cents := valueInCents (amount node) - t in
        {| date := date node;
           settlementStatus := settlementStatus node;
           amount := {| value := inject_Z cents / 100;
                        valueInCents := cents;
                        currency := currency (amount node) |} |}
  | None => node
  end.

Definition getHostFeesWithoutShare (hostFeeNodes hostFeeShareNodes : list Node)
  : list Node :=
  map (withoutShare (totalHostFeeSharePerMonthInCents hostFeeShareNodes)) hostFeeNodes.

(** [series[new Date(date).getMonth()] = amount.value]; a [NaN] index sets a
    property named NaN and leaves the twelve slots alone. *)
Definition writeSlot (series : list Q) (node : Node) : list Q :=
  match monthKey node with
  | Some m => <[fin_to_nat m := value (amount node)]> series
  | None => series
  end.

(** [dataToSeries]; [data?.forEach] skips an [undefined] argument. *)
Definition dataToSeries (nodes : option (list Node)) : list Q :=
  foldl writeSlot (replicate 12 0%Q) (default [] nodes).

(** The key lodash's [groupBy] files a node under: the status as a property
    name, which is the name null for a [null] status. *)
Definition statusKey (node : Node) : string :=
  default "null" (settlementStatus node).

(** One step of [groupBy]: push onto the group of the key, or open a new
    group after the existing ones. *)
Fixpoint pushGroup (k : string) (node : Node) (groups : list (string * list Node))
  : list (string * list Node) :=
  match groups with
  | [] => [(k, [node])]
  | (k', nodes) :: rest =>
      if String.eqb k k' then (k', nodes ++ [node]) :: rest
      else (k', nodes) :: pushGroup k node rest
  end.

(** [Object.entries(groupBy(nodes, 'settlementStatus'))]: the groups in the
    order their keys were first seen (settlement statuses are enum names, so
    none is an array index that [Object.entries] would list first). *)
Definition groupBy (nodes : list Node) : list (string * list Node) :=
  foldl (fun groups node => pushGroup (statusKey node) node groups) [] nodes.

Definition statusSeries (entry : string * list Node) : Series :=
  {| name := "Host fee share (" ++ i18nTransactionSettlementStatus (fst entry) ++ ")";
     data := dataToSeries (Some (snd entry)) |}.

Definition nodesOf (timeSeries : option TimeSeries)
    (field : TimeSeries -> option (list Node)) : list Node :=
  default [] (timeSeries ≫= field).

Definition getSeriesFromData (timeSeries : option TimeSeries) : list Series :=
  let hostFeeNodes := nodesOf timeSeries hostFees_nodes in
  let hostFeeShareNodes := nodesOf timeSeries hostFeeShare_nodes in
  {| name := "Host profit";
     data := dataToSeries (Some (getHostFeesWithoutShare hostFeeNodes hostFeeShareNodes)) |}
  :: map statusSeries (groupBy hostFeeShareNodes).

(** ** The quantities the specification speaks of *)

(** The sum of the minor-unit amounts of the settlement nodes whose month
    key is [k]. *)
Definition shareTotal (hostFeeShareNodes : list Node) (k : option (fin 12)) : Z :=
  foldr (fun node acc =>
           if decide (monthKey node = k) then valueInCents (amount node) + acc else acc)
        0 hostFeeShareNodes.

(** The netted copy of a node, given the total [t] of its month. *)
Definition netted (t : Z) (node : Node) : Node :=
  {| date := date node;
     settlementStatus := settlementStatus node;
     amount := {| value := inject_Z (valueInCents (amount node) - t) / 100;
                  valueInCents := valueInCents (amount node) - t;
                  currency := currency (amount node) |} |}.

(** The nodes that map to month slot [m], in source order. *)
Definition inMonth (m : fin 12) (nodes : list Node) : list Node :=
  filter (fun node => monthKey node = Some m) nodes.

(** The total, in major units, of the nodes of month [m]. *)
Definition monthTotal (m : fin 12) (nodes : list Node) : Q :=
  foldr (fun node acc => value (amount node) + acc)%Q 0%Q (inMonth m nodes).

(** The nodes of one settlement status. *)
Definition withStatus (k : string) (nodes : list Node) : list Node :=
  filter (fun node => statusKey node = k) nodes.

End Aggregator.

(** The value a series holds at month slot [m]. *)
Definition slot (m : fin 12) (series : list Q) : Q :=
  default 0%Q (series !! fin_to_nat m).

(** The sum over a list of series of their values at slot [m]. *)
Definition slotSum (m : fin 12) (series : list Series) : Q :=
  foldr (fun s acc => slot m (data s) + acc)%Q 0%Q series.

(** The data model's invariant on an amount: major = minor / 100. *)
Definition consistent (node : Node) : Prop :=
  (value (amount node) == inject_Z (valueInCents (amount node)) / 100)%Q.

(** The round trip at slot [m]: net profit plus every status series gives
    the gross fee total of the month. *)
Definition roundTripAt (getMonth : string -> option (fin 12))
    (i18n : string -> string) (timeSeries : option TimeSeries) (m : fin 12) : Prop :=
  match getSeriesFromData getMonth i18n timeSeries with
  | profit :: shares =>
      (slot m (data profit) + slotSum m shares ==
       monthTotal getMonth m (nodesOf timeSeries hostFees_nodes))%Q
  | [] => False
  end.

(** The round trip as the specification words it, for one input. *)
Definition roundTripClaim (getMonth : string -> option (fin 12))
    (i18n : string -> string) (timeSeries : option TimeSeries) : Prop :=
  (forall m : fin 12,
     (length (inMonth getMonth m (nodesOf timeSeries hostFees_nodes)) <= 1)%nat) ->
  forall m : fin 12, roundTripAt getMonth i18n timeSeries m.

(** ** The year selector *)

Module YearOption.
(** [{ value: year, label: year }] *)
Record t := mk { value : Z; label : Z }.
End YearOption.

(** The host record, as far as [getActiveYearsOptions] reads it. *)
Record Host := mkHost { createdAt : string }.

(** [s.split('-')[0]]: the part of [s] before its first dash. *)
Fixpoint beforeDash (s : string) : string :=
  match s with
  | EmptyString => EmptyString
  | String c rest =>
      if Ascii.eqb c "-"%char then EmptyString else String c (beforeDash rest)
  end.

Definition isWhiteSpace (c : Ascii.ascii) : bool :=
  let n := nat_of_ascii c in
  ((9 <=? n)%nat && (n <=? 13)%nat) || (n =? 32)%nat.

Fixpoint trimStart (s : string) : string :=
  match s with
  | String c rest => if isWhiteSpace c then trimStart rest else s
  | EmptyString => s
  end.

(** The value of [c] as a digit in the given radix, if it is one. *)
Definition digitOf (radix : Z) (c : Ascii.ascii) : option Z :=
  let n := Z.of_nat (nat_of_ascii c) in
  let v :=
    if (48 <=? n) && (n <=? 57) then Some (n - 48)
    else if (97 <=? n) && (n <=? 122) then Some (n - 87)
    else if (65 <=? n) && (n <=? 90) then Some (n - 55)
    else None in
  match v with
  | Some d => if d <? radix then Some d else None
  | None => None
  end.

(** The number written by the longest prefix of digits; [acc] is [None]
    until a digit has been read. *)
Fixpoint digitsPrefix (radix : Z) (s : string) (acc : option Z) : option Z :=
  match s with
  | String c rest =>
      match digitOf radix c with
      | Some d => digitsPrefix radix rest (Some (radix * default 0 acc + d))
      | None => acc
      end
  | EmptyString => acc
  end.

(** A leading sign and what it multiplies by. *)
Definition stripSign (s : string) : Z * string :=
  match s with
  | String c rest =>
      if Ascii.eqb c "-" then (-1, rest)
      else if Ascii.eqb c "+" then (1, rest)
      else (1, s)
  | EmptyString => (1, s)
  end.

(** A [0x] or [0X] prefix selects base 16. *)
Definition stripPrefix (s : string) : Z * string :=
  match s with
  | String c (String d rest) =>
      if Ascii.eqb c "0" && (Ascii.eqb d "x" || Ascii.eqb d "X") then (16, rest)
      else (10, s)
  | _ => (10, s)
  end.

(** [parseInt(s)] without a radix: leading white space and a sign are
    skipped, a hexadecimal prefix is honoured, and the digits that follow
    are read; [None] is [NaN]. *)
Definition parseInt (s : string) : option Z :=
  let '(sign, s) := stripSign (trimStart s) in
  let '(radix, s) := stripPrefix s in
  Z.mul sign <$> digitsPrefix radix s None.

(** [[...Array(n).keys()]]: the indices [0 .. n-1]; [Array(n)] throws a
    RangeError ([None]) unless [n] is an integer with [0 <= n < 2^32]. *)
Definition arrayKeys (n : Z) : option (list Z) :=
  if (0 <=? n) && (n <? 2 ^ 32) then Some (Z.of_nat <$> seq 0 (Z.to_nat n)) else None.

(** [getActiveYearsOptions]; [currentYear] is [new Date().getFullYear()].
    A [NaN] first year makes the array length [NaN], which throws as well. *)
Definition getActiveYearsOptions (currentYear : Z) (host : option Host)
  : option (list YearOption.t) :=
  firstYear ← match host with
              | Some h => parseInt (beforeDash (createdAt h))
              | None => Some currentYear
              end;
  keys ← arrayKeys (currentYear - firstYear + 1);
  let activeYears := map (fun year => year + firstYear) keys in
  Some (map (fun year => YearOption.mk year year) activeYears).

(** The value of a decimal digit character. *)
Definition decimalDigit (c : Ascii.ascii) : option Z :=
  let n := Z.of_nat (nat_of_ascii c) in
  if (48 <=? n) && (n <=? 57) then Some (n - 48) else None.

(** The year written by the four leading digits of a timestamp of the form
    [YYYY-...]. *)
Definition leadingYear (s : string) : option Z :=
  match s with
  | String a (String b (String c (String d (String "-"%char _)))) =>
      a ← decimalDigit a; b ← decimalDigit b; c ← decimalDigit c; d ← decimalDigit d;
      Some (1000 * a + 100 * b + 10 * c + d)
  | _ => None
  end.

(** ** The chart options and the query variables *)

(** [Math.round]: the nearest integer, a half going up. *)
Definition Math_round (x : Q) : Z := Qfloor (x + (1 # 2)).

(** The formatter of [yaxis.labels]: a number, or a string that ends in k;
    the template literal writes the integer in decimal. *)
Definition yaxisFormatter (value : Q) : Q + string :=
  if Qlt_le_dec value 1000 then inl value
  else inr (pretty (Math_round (value / 1000)) +:+ "k").

(** The fields of [getChartOptions] that are computed; the others are
    literals. *)
Record ChartOptions := mkChartOptions {
  xaxis_categories : list string;
  yaxis_labels_formatter : Q -> Q + string;
  tooltip_y_formatter : Q -> string;
}.

Section Chart.

(** [intl.formatDate(new Date(0, idx), { month: 'short' })],
    [String.prototype.toUpperCase] and the imported [formatCurrency]. *)
Variable formatMonth : nat -> string.
Variable toUpperCase : string -> string.
Variable formatCurrency : Q -> option string -> string.

Definition getChartOptions (hostCurrency : option string) : ChartOptions :=
  {| xaxis_categories :=
       map (fun idx => toUpperCase (formatMonth idx)) (seq 0 12);
     yaxis_labels_formatter := yaxisFormatter;
     tooltip_y_formatter := fun value => formatCurrency (value * 100)%Q hostCurrency |}.

End Chart.

(** [{ hostSlug, dateFrom, dateTo }] *)
Record QueryVariables := mkQueryVariables {
  hostSlug : string;
  dateFrom : string;
  dateTo : string;
}.

(** [getQueryVariables]; the template literals write the year in decimal. *)
Definition getQueryVariables (hostSlug : string) (year : Z) : QueryVariables :=
  {| hostSlug := hostSlug;
     dateFrom := pretty year +:+ "-01-01T00:00:00Z";
     dateTo := pretty year +:+ "-12-31T23:59:59Z" |}.

(** The total, in minor units, of the nodes of month [m]. *)
Definition monthCents (getMonth : string -> option (fin 12)) (m : fin 12)
    (nodes : list Node) : Z :=
  foldr (fun node acc => valueInCents (amount node) + acc) 0 (inMonth getMonth m nodes).

(** The amount invariant as the code itself computes it: [value] is the
    quotient [valueInCents / 100], the very number that division returns. *)
Definition valueIsQuotient (node : Node) : Prop :=
  value (amount node) = (inject_Z (valueInCents (amount node)) / 100)%Q.

(** The minor-unit amount behind the value a series shows at month [m]:
    that of the last node of the month, none when the month has no node. *)
Definition lastCents (getMonth : string -> option (fin 12)) (m : fin 12)
    (nodes : list Node) : option Z :=
  (fun node => valueInCents (amount node)) <$> last (inMonth getMonth m nodes).

(** What a slot holds for a minor-unit amount: the quotient by 100, and the
    initial 0 when there is none. *)
Definition shown (cents : option Z) : Q :=
  match cents with
  | Some c => (inject_Z c / 100)%Q
  | None => 0%Q
  end.

(** The sum over the groups of a [groupBy] of their minor-unit totals for
    month [m]. *)
Definition groupsCents (getMonth : string -> option (fin 12)) (m : fin 12)
    (groups : list (string * list Node)) : Z :=
  foldr (fun g acc => monthCents getMonth m (snd g) + acc) 0 groups.

(** Every character of [s] is a decimal digit. *)
Fixpoint allDigits (s : string) : bool :=
  match s with
  | EmptyString => true
  | String c rest => bool_decide (is_Some (decimalDigit c)) && allDigits rest
  end.

(** A key written with decimal digits only.  The integer-like keys, which
    [Object.entries] lists first and in numeric order, are among them. *)
Definition indexLike (k : string) : bool :=
  allDigits k && negb (String.eqb k "").

(** The years from [first] through [last], in increasing order. *)
Definition yearsThrough (first last : Z) : list Z :=
  (fun i => first + Z.of_nat i) <$> seq 0 (Z.to_nat (last - first + 1)).

(** The available years as the specification words them, for one host. *)
Definition activeYearsClaim (currentYear : Z) (host : option Host) : Prop :=
  match host with
  | Some h =>
      forall firstYear, leadingYear (createdAt h) = Some firstYear ->
        getActiveYearsOptions currentYear host =
        Some ((fun year => YearOption.mk year year) <$> yearsThrough firstYear currentYear)
  | None =>
      getActiveYearsOptions currentYear host =
      Some [YearOption.mk currentYear currentYear]
  end.

(** ** Sample inputs *)

(** A reading of [getMonth] for ISO timestamps in a browser on UTC: the two
    digits after [YYYY-]. *)
Definition isoMonth (d : string) : option (fin 12) :=
  match parseInt (substring 5 2 d) with
  | Some 1 => Some 0%fin | Some 2 => Some 1%fin | Some 3 => Some 2%fin
  | Some 4 => Some 3%fin | Some 5 => Some 4%fin | Some 6 => Some 5%fin
  | Some 7 => Some 6%fin | Some 8 => Some 7%fin | Some 9 => Some 8%fin
  | Some 10 => Some 9%fin | Some 11 => Some 10%fin | Some 12 => Some 11%fin
  | _ => None
  end.

Definition rawLabel (status : string) : string := status.

Definition feeNode (d : string) (cents : Z) : Node :=
  mkNode d None (mkAmount (inject_Z cents / 100) cents "USD").

Definition shareNode (d : string) (status : string) (cents : Z) : Node :=
  mkNode d (Some status) (mkAmount (inject_Z cents / 100) cents "USD").

Definition january : string := "2021-01-01T00:00:00.000Z".
Definition march : string := "2021-03-01T00:00:00.000Z".

(** January: 10.00 of fees, 3.00 invoiced. *)
Definition sampleSettled : TimeSeries :=
  mkTimeSeries (Some [feeNode january 1000; feeNode march 500])
               (Some [shareNode january "INVOICED" 300]).

(** January: two settlement records of the same status. *)
Definition sampleTwice : TimeSeries :=
  mkTimeSeries (Some [feeNode january 1000])
               (Some [shareNode january "INVOICED" 300; shareNode january "INVOICED" 200]).

(** March: a settlement record in a month without a gross fee record. *)
Definition sampleOrphan : TimeSeries :=
  mkTimeSeries (Some [feeNode january 1000])
               (Some [shareNode march "SETTLED" 300]).

End HostFees.

Module Members.

(** ** Data: what [coreContributorsQuery] returns *)

Module Account.
(** The account behind a membership: [account] on a member,
    [memberAccount] on an invitation. *)
Record t := mk {
  id : option string;
  name : option string;
  slug : option string;
}.
End Account.

(** An element of the roster: a member node, an invitation, or the empty
    object.  Every field may be missing.  [member] is not selected by the
    query; [getMembersCollectiveIds] reads it. *)
Record Entry := mkEntry {
  id : option string;
  role : option string;
  since : option string;
  description : option string;
  account : option Account.t;
  memberAccount : option Account.t;
  member : option Account.t;
  __typename : option string;
}.

(** [props.data], as far as [getMembersFromProps] reads it: the values at
    the paths [memberInvitations] and [account.members.nodes], [None] when
    lodash's [get] finds [undefined] there. *)
Record Data := mkData {
  account_members_nodes : option (list Entry);
  memberInvitations : option (list Entry);
}.

(** The object [{}]. *)
Definition emptyObject : Entry :=
  mkEntry None None None None None None None None.

Definition EMPTY_MEMBERS : list Entry := [emptyObject].

(** Modelled from the spec: [roles.ADMIN] of [lib/constants/roles], the
    role name of an administrator. *)
Definition roles_ADMIN : string := "ADMIN".

(** JS truthiness of a string field: present and not the empty string. *)
Definition truthy (x : option string) : bool :=
  match x with
  | Some s => negb (String.eqb s "")
  | None => false
  end.

(** [omit(i, ['id'])] *)
Definition omit_id (i : Entry) : Entry :=
  {| id := None;
     role := role i;
     since := since i;
     description := description i;
     account := account i;
     memberAccount := memberAccount i;
     member := member i;
     __typename := __typename i |}.

Definition getMembersFromProps (data : Data) : list Entry :=
  let pendingInvitations := default EMPTY_MEMBERS (memberInvitations data) in
  let pendingInvitationsMembersData := map omit_id pendingInvitations in
  let members := default EMPTY_MEMBERS (account_members_nodes data) in
  let all := members ++ pendingInvitationsMembersData in
  if (length all =? 0)%nat then EMPTY_MEMBERS else all.

(** [member.member && member.member.id]; a missing [member] and a missing
    [id] both read as [undefined]. *)
Definition getMembersCollectiveIds (members : list Entry) : list (option string) :=
  map (fun member_ => member member_ ≫= Account.id) members.

(** The test of the filter in [renderSection]:
    [m.role === roles.ADMIN && m.id]. *)
Definition isAdminMember (m : Entry) : bool :=
  bool_decide (role m = Some roles_ADMIN) && truthy (id m).

(** [nbAdmins] of [renderSection] *)
Definition nbAdmins (members : list Entry) : nat :=
  length (List.filter isAdminMember members).

(** The value of an [a && b && c] chain that ends in an identifier. *)
Inductive Flag :=
  | FlagFalse
  | FlagId (v : option string).

(** [ToBoolean] on a flag *)
Definition flagSet (f : Flag) : bool :=
  match f with
  | FlagFalse => false
  | FlagId v => truthy v
  end.

(** [isLastAdmin] of [renderMember]; [currentMember] is
    [this.state.currentMember], [None] when it is [null]. *)
Definition isLastAdmin (nbAdmins : nat) (currentMember : option Entry) : Flag :=
  if negb (nbAdmins =? 1)%nat then FlagFalse
  else if negb (bool_decide (currentMember ≫= role = Some roles_ADMIN)) then FlagFalse
  else FlagId (currentMember ≫= id).

(** The account the card of an entry shows:
    [member.account || member.memberAccount] in [renderMember]. *)
Definition memberCollective (m : Entry) : option Account.t :=
  match account m with
  | Some a => Some a
  | None => memberAccount m
  end.

(** ** The cards and the edit modal *)

(** [memberKey] of [renderMember], and [currentMemberKey] of
    [handleShowModalChange]: the template literal writes a missing account
    identifier as the word undefined. *)
Definition memberKey (m : Entry) : string :=
  if truthy (id m) then "member-" +:+ default "undefined" (id m)
  else "collective-" +:+ default "undefined" (memberAccount m ≫= Account.id).

(** [this.state], without [error]. *)
Record State := mkState {
  currentMember : option Entry;
  currentMemberKey : option string;
  currentModalKey : option string;
  members : list Entry;
  showInviteModal : bool;
  showEditModal : bool;
}.

(** The state the constructor sets up. *)
Definition initialState (data : Data) : State :=
  {| currentMember := None;
     currentMemberKey := None;
     currentModalKey := None;
     members := getMembersFromProps data;
     showInviteModal := false;
     showEditModal := false |}.

(** [handleShowModalChange]; a call may leave out [memberIdx] and
    [currentModalKey], which then are [undefined]. *)
Definition handleShowModalChange (modal : string) (value : bool)
    (memberIdx : option nat) (modalKey : option string) (st : State) : State :=
  let st :=
    if String.eqb modal "edit" then
      match memberIdx ≫= (fun idx => members st !! idx) with
      | Some member_ =>
          {| currentMember := Some member_;
             currentMemberKey := Some (memberKey member_);
             currentModalKey := modalKey;
             members := members st;
             showInviteModal := showInviteModal st;
             showEditModal := value |}
      | None =>
          {| currentMember := currentMember st;
             currentMemberKey := currentMemberKey st;
             currentModalKey := currentModalKey st;
             members := members st;
             showInviteModal := showInviteModal st;
             showEditModal := value |}
      end
    else st in
  if String.eqb modal "invite" then
    {| currentMember := currentMember st;
       currentMemberKey := currentMemberKey st;
       currentModalKey := currentModalKey st;
       members := members st;
       showInviteModal := value;
       showEditModal := showEditModal st |}
  else st.

(** The test under which [renderMember] puts the edit modal on a card
    instead of the edit button. *)
Definition showsEditModal (st : State) (member_ : Entry) (memberModalKey : string) : bool :=
  showEditModal st
  && bool_decide (Some (memberKey member_) = currentMemberKey st)
  && bool_decide (Some memberModalKey = currentModalKey st).

(** The [isLastAdmin] prop a card computes in state [st]. *)
Definition lastAdminProp (st : State) : Flag :=
  isLastAdmin (nbAdmins (members st)) (currentMember st).

(** [props], as far as [componentDidUpdate] reads it: the data, and the
    identity of the two arrays in it ([None] where [get] gives [null]). *)
Record Props := mkProps {
  data : Data;
  membersRef : option nat;
  invitationsRef : option nat;
}.

(** [componentDidUpdate]: the roster is rebuilt when one of the two arrays
    is not the same object as before. *)
Definition componentDidUpdate (props oldProps : Props) (st : State) : State :=
  if negb (bool_decide (invitationsRef props = invitationsRef oldProps))
     || negb (bool_decide (membersRef props = membersRef oldProps))
  then
    {| currentMember := currentMember st;
       currentMemberKey := currentMemberKey st;
       currentModalKey := currentModalKey st;
       members := getMembersFromProps (data props);
       showInviteModal := showInviteModal st;
       showEditModal := showEditModal st |}
  else st.

(** What happens to a mounted component: a call of
    [handleShowModalChange] by a handler of a card, or an update of the
    props. *)
Inductive Event :=
  | ShowModalChange (modal : string) (value : bool)
      (memberIdx : option nat) (modalKey : option string)
  | PropsUpdate (props oldProps : Props).

Definition applyEvent (st : State) (ev : Event) : State :=
  match ev with
  | ShowModalChange modal value memberIdx modalKey =>
      handleShowModalChange modal value memberIdx modalKey st
  | PropsUpdate props oldProps => componentDidUpdate props oldProps st
  end.

(** The state after a sequence of events, from the constructor's state. *)
Definition run (data : Data) (events : list Event) : State :=
  foldl applyEvent (initialState data) events.

(** Two props whose arrays were not changed in place: an array that is the
    same object has the same elements, and an absent array stays absent. *)
Definition unchangedInPlace (props oldProps : Props) : Prop :=
  (membersRef props = membersRef oldProps ->
   account_members_nodes (data props) = account_members_nodes (data oldProps)) /\
  (invitationsRef props = invitationsRef oldProps ->
   memberInvitations (data props) = memberInvitations (data oldProps)).

(** ** The quantities the specification speaks of *)

(** The identifier of an entry is present: it is a string that the test
    [m.id] accepts, that is, a non-empty one. *)
Definition idPresent (m : Entry) : Prop :=
  match id m with
  | Some s => s <> ""
  | None => False
  end.

#[global] Instance idPresent_dec (m : Entry) : Decision (idPresent m).
Proof. unfold idPresent. destruct (id m); apply _. Defined.

(** An input sequence, an absent one read as empty. *)
Definition orEmpty (nodes : option (list Entry)) : list Entry := default [] nodes.

(** The roster length as the specification words it, for one input. *)
Definition rosterLengthClaim (data : Data) : Prop :=
  let members := orEmpty (account_members_nodes data) in
  let invitations := orEmpty (memberInvitations data) in
  length (getMembersFromProps data) =
  match members, invitations with
  | [], [] => 1%nat
  | _, _ => (length members + length invitations)%nat
  end.

(** The roster composition as the specification words it, for one input. *)
Definition rosterCompositionClaim (data : Data) : Prop :=
  getMembersFromProps data =
  orEmpty (account_members_nodes data) ++ map omit_id (orEmpty (memberInvitations data)).

(** ** Sample inputs *)

Definition adminNode : Entry :=
  {| id := Some "m1"; role := Some "ADMIN"; since := None; description := None;
     account := Some (Account.mk (Some "a1") (Some "Ada") (Some "ada"));
     memberAccount := None; member := None; __typename := Some "Member" |}.

Definition invitation : Entry :=
  {| id := Some "i1"; role := Some "ADMIN"; since := None; description := None;
     account := None;
     memberAccount := Some (Account.mk (Some "a2") (Some "Bo") (Some "bo"));
     member := None; __typename := Some "MemberInvitation" |}.

(** One admin and one pending invitation. *)
Definition sampleData : Data := mkData (Some [adminNode]) (Some [invitation]).

(** The same arrays, the same objects. *)
Definition sampleProps : Props := mkProps sampleData (Some 1%nat) (Some 2%nat).

(** A refetch: a new array of members, now empty. *)
Definition refetchedProps : Props :=
  mkProps (mkData (Some []) (Some [invitation])) (Some 3%nat) (Some 2%nat).

End Members.

(** * Properties of the fee aggregator *)

Module HostFeesFacts.
Import HostFees.

Section Netting.

Context (getMonth : string -> option (fin 12)).

Local Abbreviation monthKey := (HostFees.monthKey getMonth).
Local Abbreviation addShare := (HostFees.addShare getMonth).
Local Abbreviation totals := (HostFees.totalHostFeeSharePerMonthInCents getMonth).
Local Abbreviation withoutShare := (HostFees.withoutShare getMonth).
Local Abbreviation getHostFeesWithoutShare := (HostFees.getHostFeesWithoutShare getMonth).
Local Abbreviation shareTotal := (HostFees.shareTotal getMonth).

Lemma orZero_Some (x : Z) : orZero (Some x) = x.
Proof. unfold orZero. destruct (Z.eqb_spec x 0); congruence. Qed.

Lemma addShare_lookup result node k :
  orZero (addShare result node !! k) =
  if decide (monthKey node = k)
  then orZero (result !! k) + valueInCents (amount node)
  else orZero (result !! k).
Proof.
  unfold HostFees.addShare. case_decide as Hk.
  - subst k. rewrite lookup_insert_eq. apply orZero_Some.
  - by rewrite lookup_insert_ne.
Qed.

Lemma foldl_addShare_lookup shares : forall result k,
  orZero (foldl addShare result shares !! k) =
  orZero (result !! k) + shareTotal shares k.
Proof.
  induction shares as [|node shares IH]; intros result k; simpl.
  - lia.
  - rewrite IH, addShare_lookup. case_decide; lia.
Qed.

(** The dictionary built by [reduce] reads, through JS truthiness, as the
    settlement total of the month. *)
Lemma totals_lookup shares k :
  orZero (totals shares !! k) = shareTotal shares k.
Proof.
  unfold totalHostFeeSharePerMonthInCents.
  rewrite foldl_addShare_lookup, lookup_empty. reflexivity.
Qed.

Lemma withoutShare_total shares node :
  withoutShare (totals shares) node =
  if shareTotal shares (monthKey node) =? 0 then node
  else netted (shareTotal shares (monthKey node)) node.
Proof.
  rewrite <- totals_lookup. unfold HostFees.withoutShare, orZero, netted.
  destruct (totals shares !! monthKey node) as [t|]; [|done].
  destruct (Z.eqb_spec t 0) as [->|Ht]; [done|].
  destruct (Z.eqb_spec t 0); [lia|done].
Qed.

Lemma shareTotal_no_record shares k :
  (forall node, node ∈ shares -> monthKey node <> k) -> shareTotal shares k = 0.
Proof.
  induction shares as [|node shares IH]; intros Hno; simpl; [done|].
  case_decide as Hk.
  - exfalso. apply (Hno node); [left|done].
  - apply IH. intros n Hn. apply Hno. by right.
Qed.

Lemma length_getHostFeesWithoutShare fees shares :
  length (getHostFeesWithoutShare fees shares) = length fees.
Proof. unfold HostFees.getHostFeesWithoutShare. apply length_map. Qed.

Lemma lookup_getHostFeesWithoutShare fees shares (i : nat) :
  getHostFeesWithoutShare fees shares !! i = withoutShare (totals shares) <$> fees !! i.
Proof. unfold HostFees.getHostFeesWithoutShare. apply list_lookup_fmap. Qed.

Lemma monthKey_withoutShare shares node :
  monthKey (withoutShare (totals shares) node) = monthKey node.
Proof. rewrite withoutShare_total. by destruct (_ =? _). Qed.

(** C3. Netting contract: a gross fee record in month [m] is replaced, at
    its own position, by a record whose minor-unit amount is the gross amount
    minus the settlement total [t] of [m] and whose major-unit amount is that
    difference divided by 100, whenever [t] is not zero; it is passed through
    unchanged when [t] is zero, in particular when no settlement record
    falls in [m]. *)
Theorem netting_contract fees shares (i : nat) (r : Node) (m : fin 12) :
  fees !! i = Some r ->
  monthKey r = Some m ->
  let t := shareTotal shares (Some m) in
  let out := getHostFeesWithoutShare fees shares in
  (t <> 0 ->
     exists r', out !! i = Some r' /\
       valueInCents (amount r') = valueInCents (amount r) - t /\
       value (amount r') = (inject_Z (valueInCents (amount r) - t) / 100)%Q) /\
  (t = 0 -> out !! i = Some r) /\
  ((forall node, node ∈ shares -> monthKey node <> Some m) -> out !! i = Some r).
Proof.
  intros Hi Hm t out. subst out.
  rewrite lookup_getHostFeesWithoutShare, Hi. simpl.
  rewrite withoutShare_total, Hm. fold t.
  split; [|split].
  - intros Ht. destruct (Z.eqb_spec t 0); [done|].
    eexists; split; [reflexivity|]. by simpl.
  - intros ->. reflexivity.
  - intros Hno. subst t. by rewrite shareTotal_no_record.
Qed.

(** C10. Frame property of netting: one output record per gross fee record,
    in the same order, and the date, the settlement status and the currency
    of each output record are those of the input record at the same
    position. *)
Theorem netting_frame fees shares :
  let out := getHostFeesWithoutShare fees shares in
  length out = length fees /\
  forall (i : nat) (r : Node), fees !! i = Some r ->
    exists r', out !! i = Some r' /\
      date r' = date r /\
      settlementStatus r' = settlementStatus r /\
      currency (amount r') = currency (amount r).
Proof.
  intros out. subst out. split; [apply length_getHostFeesWithoutShare|].
  intros i r Hi. rewrite lookup_getHostFeesWithoutShare, Hi. simpl.
  rewrite withoutShare_total.
  destruct (_ =? _); eexists; split; try reflexivity; done.
Qed.

End Netting.

Section Series.

Context (getMonth : string -> option (fin 12)) (i18n : string -> string).

Local Abbreviation monthKey := (HostFees.monthKey getMonth).
Local Abbreviation totals := (HostFees.totalHostFeeSharePerMonthInCents getMonth).
Local Abbreviation withoutShare := (HostFees.withoutShare getMonth).
Local Abbreviation getHostFeesWithoutShare := (HostFees.getHostFeesWithoutShare getMonth).
Local Abbreviation shareTotal := (HostFees.shareTotal getMonth).
Local Abbreviation writeSlot := (HostFees.writeSlot getMonth).
Local Abbreviation dataToSeries := (HostFees.dataToSeries getMonth).
Local Abbreviation inMonth := (HostFees.inMonth getMonth).
Local Abbreviation monthTotal := (HostFees.monthTotal getMonth).
Local Abbreviation statusSeries := (HostFees.statusSeries getMonth i18n).
Local Abbreviation getSeriesFromData := (HostFees.getSeriesFromData getMonth i18n).
Local Abbreviation monthCents := (HostFees.monthCents getMonth).
Local Abbreviation lastCents := (HostFees.lastCents getMonth).
Local Abbreviation groupsCents := (HostFees.groupsCents getMonth).

(** *** Twelve slots, last write wins *)

Lemma length_writeSlot series node :
  length (writeSlot series node) = length series.
Proof.
  unfold HostFees.writeSlot. destruct (monthKey node); [apply length_insert|done].
Qed.

Lemma length_foldl_writeSlot nodes : forall series,
  length (foldl writeSlot series nodes) = length series.
Proof.
  induction nodes as [|node nodes IH]; intros series; simpl; [done|].
  by rewrite IH, length_writeSlot.
Qed.

Lemma length_dataToSeries nodes : length (dataToSeries nodes) = 12%nat.
Proof.
  unfold HostFees.dataToSeries. by rewrite length_foldl_writeSlot, length_replicate.
Qed.

Lemma writeSlot_lookup series node (m : fin 12) (x : Q) :
  series !! fin_to_nat m = Some x ->
  writeSlot series node !! fin_to_nat m =
  Some (if decide (monthKey node = Some m) then value (amount node) else x).
Proof.
  intros Hx. unfold HostFees.writeSlot.
  destruct (monthKey node) as [m'|] eqn:Hm'.
  - case_decide as Heq.
    + injection Heq as ->. apply list_lookup_insert_eq.
      by eapply lookup_lt_Some.
    + rewrite list_lookup_insert_ne; [done|].
      intros E. apply Heq. f_equal. by apply (inj fin_to_nat).
  - by case_decide.
Qed.

Lemma inMonth_cons (m : fin 12) node nodes :
  inMonth m (node :: nodes) =
  if decide (monthKey node = Some m) then node :: inMonth m nodes else inMonth m nodes.
Proof. unfold HostFees.inMonth. by rewrite filter_cons. Qed.

(** After the loop, slot [m] holds the value of the last node of month [m],
    or what it held before when there is none. *)
Lemma foldl_writeSlot_lookup (m : fin 12) nodes : forall series (x : Q),
  series !! fin_to_nat m = Some x ->
  foldl writeSlot series nodes !! fin_to_nat m =
  Some (from_option (fun node => value (amount node)) x (last (inMonth m nodes))).
Proof.
  induction nodes as [|node nodes IH]; intros series x Hx; simpl; [done|].
  rewrite (IH _ _ (writeSlot_lookup _ node _ _ Hx)), inMonth_cons.
  case_decide; [|done].
  rewrite last_cons. by destruct (last (inMonth m nodes)).
Qed.

Lemma dataToSeries_lookup (m : fin 12) nodes :
  dataToSeries (Some nodes) !! fin_to_nat m =
  Some (from_option (fun node => value (amount node)) 0%Q (last (inMonth m nodes))).
Proof.
  unfold HostFees.dataToSeries. apply foldl_writeSlot_lookup.
  apply lookup_replicate_2, fin_to_nat_lt.
Qed.

Lemma dataToSeries_empty_month (m : fin 12) nodes :
  inMonth m nodes = [] -> dataToSeries (Some nodes) !! fin_to_nat m = Some 0%Q.
Proof. intros E. by rewrite dataToSeries_lookup, E. Qed.

Lemma inMonth_getHostFeesWithoutShare (m : fin 12) fees shares :
  inMonth m (getHostFeesWithoutShare fees shares) =
  map (withoutShare (totals shares)) (inMonth m fees).
Proof.
  unfold HostFees.getHostFeesWithoutShare.
  induction fees as [|node fees IH]; [done|].
  simpl. rewrite !inMonth_cons, IH, (monthKey_withoutShare getMonth).
  by case_decide.
Qed.

(** *** The groups of [groupBy] *)

Lemma withStatus_snoc k nodes node :
  withStatus k (nodes ++ [node]) =
  withStatus k nodes ++ (if decide (statusKey node = k) then [node] else []).
Proof.
  unfold withStatus. by rewrite filter_app.
Qed.

Lemma pushGroup_keys k node groups :
  (pushGroup k node groups).*1 =
  if decide (k ∈ groups.*1) then groups.*1 else groups.*1 ++ [k].
Proof.
  induction groups as [|[k' nodes] groups IH].
  - case_decide as Hin; [by apply elem_of_nil in Hin|done].
  - cbn [pushGroup].
    destruct (String.eqb_spec k k') as [->|Hk]; rewrite !fmap_cons; cbn [fst].
    + destruct (decide (_ ∈ _ :: _)) as [Hin|Hin]; [done|].
      exfalso. apply Hin. left.
    + rewrite IH. destruct (decide (k ∈ groups.*1)) as [Hin|Hin].
      * destruct (decide (_ ∈ _ :: _)) as [Hin'|Hin']; [done|].
        exfalso. apply Hin'. by right.
      * destruct (decide (_ ∈ _ :: _)) as [Hin'|Hin']; [|done].
        apply elem_of_cons in Hin' as [?|?]; done.
Qed.

Lemma pushGroup_exact node groups seen :
  NoDup groups.*1 ->
  (statusKey node ∉ groups.*1 -> withStatus (statusKey node) seen = []) ->
  Forall (fun g => snd g = withStatus (fst g) seen) groups ->
  Forall (fun g => snd g = withStatus (fst g) (seen ++ [node]))
         (pushGroup (statusKey node) node groups).
Proof.
  intros Hdup Hnew Hexact. revert Hdup Hnew.
  induction Hexact as [|[k' nodes] groups Hhead Hrest IH]; simpl; intros Hdup Hnew.
  - constructor; [|constructor]. simpl.
    rewrite withStatus_snoc, decide_True, Hnew by (done || apply not_elem_of_nil). done.
  - apply NoDup_cons in Hdup as [Hk' Hdup]. simpl in Hhead.
    destruct (String.eqb_spec (statusKey node) k') as [Hk|Hk].
    + constructor; simpl.
      * by rewrite withStatus_snoc, decide_True, Hhead by done.
      * rewrite Forall_forall in Hrest. apply Forall_forall. intros g Hg.
        rewrite withStatus_snoc, decide_False, app_nil_r; [by apply Hrest|].
        intros E. apply Hk'. rewrite <- Hk, E. apply list_elem_of_fmap. by exists g.
    + constructor; simpl.
      * by rewrite withStatus_snoc, decide_False, app_nil_r.
      * apply IH; [done|]. intros Hnot. apply Hnew.
        intros [?|?]%elem_of_cons; done.
Qed.

(** What [groupBy] maintains while it runs over the nodes seen so far:
    distinct keys, under each key exactly the nodes of that status in source
    order, and no node without its group. *)
Lemma foldl_pushGroup_exact nodes : forall groups seen,
  NoDup groups.*1 ->
  Forall (fun g => snd g = withStatus (fst g) seen) groups ->
  (forall k, k ∉ groups.*1 -> withStatus k seen = []) ->
  let groups' :=
    foldl (fun groups node => pushGroup (statusKey node) node groups) groups nodes in
  NoDup groups'.*1 /\
  Forall (fun g => snd g = withStatus (fst g) (seen ++ nodes)) groups' /\
  (forall k, k ∉ groups'.*1 -> withStatus k (seen ++ nodes) = []).
Proof.
  induction nodes as [|node nodes IH]; intros groups seen Hdup Hexact Hcover; simpl.
  - by rewrite app_nil_r.
  - rewrite (cons_middle node), app_assoc. apply IH.
    + rewrite pushGroup_keys. case_decide as Hin; [done|].
      apply NoDup_app. split; [done|]. split; [|apply NoDup_singleton].
      intros k Hk ->%list_elem_of_singleton. done.
    + apply pushGroup_exact; auto.
    + intros k Hk. rewrite pushGroup_keys in Hk.
      rewrite withStatus_snoc, Hcover.
      * rewrite decide_False; [done|]. intros E. apply Hk.
        case_decide as Hin; [by rewrite <- E|].
        apply elem_of_app. right. rewrite E. by left.
      * intros Hin. apply Hk. case_decide; [done|]. apply elem_of_app. by left.
Qed.

(** The groups of [groupBy]: one per status, each holding exactly the nodes
    of its status, in source order; a status without a group has no node. *)
Lemma groupBy_exact nodes :
  NoDup (groupBy nodes).*1 /\
  Forall (fun g => snd g = withStatus (fst g) nodes) (groupBy nodes) /\
  (forall k, k ∉ (groupBy nodes).*1 -> withStatus k nodes = []).
Proof.
  apply (foldl_pushGroup_exact nodes [] []); [constructor|constructor|done].
Qed.

Lemma groupBy_lookup nodes (i : nat) status group :
  groupBy nodes !! i = Some (status, group) -> group = withStatus status nodes.
Proof.
  intros Hi. destruct (groupBy_exact nodes) as (_ & Hexact & _).
  rewrite Forall_lookup in Hexact. exact (Hexact _ _ Hi).
Qed.

Lemma all_series_twelve_slots timeSeries :
  Forall (fun s => length (data s) = 12%nat) (getSeriesFromData timeSeries).
Proof.
  unfold HostFees.getSeriesFromData.
  constructor; [apply length_dataToSeries|].
  apply Forall_fmap, Forall_true. intros g. apply length_dataToSeries.
Qed.

(** C4. Every data array of the aggregator's output, the net-profit series
    and each settlement-status series, has exactly twelve slots, for every
    input; the net-profit series holds 0 at each month without a gross fee
    record, and the series of a status holds 0 at each month without a
    settlement record of that status. *)
Theorem series_have_twelve_slots timeSeries :
  let fees := nodesOf timeSeries hostFees_nodes in
  let shares := nodesOf timeSeries hostFeeShare_nodes in
  let out := getSeriesFromData timeSeries in
  Forall (fun s => length (data s) = 12%nat) out /\
  (exists profit, out !! 0%nat = Some profit /\
     forall m : fin 12, inMonth m fees = [] ->
       data profit !! fin_to_nat m = Some 0%Q) /\
  (forall (i : nat) (s : Series), out !! S i = Some s ->
     exists status, name s = ("Host fee share (" ++ i18n status ++ ")")%string /\
       forall m : fin 12, inMonth m (withStatus status shares) = [] ->
         data s !! fin_to_nat m = Some 0%Q).
Proof.
  intros fees shares out. subst out. unfold HostFees.getSeriesFromData.
  fold fees shares. split; [|split].
  - constructor; [apply length_dataToSeries|].
    apply Forall_fmap, Forall_true. intros g. apply length_dataToSeries.
  - eexists. split; [reflexivity|]. intros m Hm. simpl.
    apply dataToSeries_empty_month.
    by rewrite inMonth_getHostFeesWithoutShare, Hm.
  - intros i s Hs. simpl in Hs. rewrite list_lookup_fmap in Hs.
    destruct (groupBy shares !! i) as [[status nodes]|] eqn:Hg; [|done].
    injection Hs as <-. exists status. split; [done|].
    intros m Hm. simpl. apply dataToSeries_empty_month.
    by rewrite (groupBy_lookup _ _ _ _ Hg).
Qed.

(** *** Sums per month, in minor units *)

Lemma monthCents_app (m : fin 12) l1 l2 :
  monthCents m (l1 ++ l2) = monthCents m l1 + monthCents m l2.
Proof.
  unfold HostFees.monthCents, HostFees.inMonth. rewrite filter_app.
  induction (filter _ l1) as [|x l IH]; simpl; [done|]. rewrite IH. lia.
Qed.

Lemma groupsCents_pushGroup (m : fin 12) k node groups :
  groupsCents m (pushGroup k node groups) = groupsCents m groups + monthCents m [node].
Proof.
  induction groups as [|[k' nodes] groups IH]; simpl; [lia|].
  destruct (String.eqb k k'); simpl.
  - rewrite monthCents_app. lia.
  - rewrite IH. lia.
Qed.

Lemma foldl_pushGroup_cents (m : fin 12) nodes : forall groups,
  groupsCents m (foldl (fun groups node => pushGroup (statusKey node) node groups)
                       groups nodes) =
  groupsCents m groups + monthCents m nodes.
Proof.
  induction nodes as [|node nodes IH]; intros groups; simpl.
  - unfold HostFees.monthCents. simpl. lia.
  - rewrite IH, groupsCents_pushGroup.
    change (node :: nodes) with ([node] ++ nodes).
    rewrite (monthCents_app m [node] nodes). lia.
Qed.

(** The groups split the settlement records: their minor-unit totals add up
    to the total of all records. *)
Lemma groupsCents_groupBy (m : fin 12) nodes :
  groupsCents m (groupBy nodes) = monthCents m nodes.
Proof. unfold groupBy. rewrite foldl_pushGroup_cents. simpl. lia. Qed.

Lemma monthCents_shareTotal (m : fin 12) shares :
  monthCents m shares = shareTotal shares (Some m).
Proof.
  unfold HostFees.monthCents, HostFees.inMonth.
  induction shares as [|node shares IH]; [done|].
  rewrite filter_cons. simpl. case_decide; simpl; by rewrite IH.
Qed.

Lemma lastCents_single (m : fin 12) nodes :
  (length (inMonth m nodes) <= 1)%nat ->
  default 0 (lastCents m nodes) = monthCents m nodes.
Proof.
  unfold HostFees.lastCents, HostFees.monthCents.
  destruct (inMonth m nodes) as [|x [|y l]]; simpl; intros Hlen; lia.
Qed.

(** A slot shows the quotient of the minor-unit amount of the last node of
    its month, when the values of the nodes are such quotients. *)
Lemma dataToSeries_shown (m : fin 12) nodes :
  Forall valueIsQuotient nodes ->
  dataToSeries (Some nodes) !! fin_to_nat m = Some (shown (lastCents m nodes)).
Proof.
  intros Hq. rewrite dataToSeries_lookup. f_equal. unfold HostFees.lastCents.
  destruct (last (inMonth m nodes)) as [node|] eqn:Hlast; [|done]. simpl.
  apply last_Some_elem_of in Hlast.
  apply list_elem_of_filter in Hlast as [_ Hnode].
  rewrite Forall_forall in Hq. exact (Hq _ Hnode).
Qed.

Lemma valueIsQuotient_withoutShare fees shares :
  Forall valueIsQuotient fees ->
  Forall valueIsQuotient (getHostFeesWithoutShare fees shares).
Proof.
  intros Hfees. unfold HostFees.getHostFeesWithoutShare.
  apply Forall_fmap. eapply Forall_impl; [exact Hfees|].
  intros r Hr. simpl. rewrite (withoutShare_total getMonth).
  by destruct (_ =? _).
Qed.

(** C1, amended. Round trip of the aggregator, in minor units: on records
    whose value is the quotient of their minor-unit amount by 100, at a month
    slot [m] that holds at most one gross fee record, at most one settlement
    record of each status, and no settlement record unless it holds a gross
    fee record, the net-profit series and the status series show at [m] the
    quotients by 100 of minor-unit amounts (and 0 without a record) that add
    up to the gross fee total of the month. *)
Theorem round_trip_in_cents timeSeries (m : fin 12) :
  let fees := nodesOf timeSeries hostFees_nodes in
  let shares := nodesOf timeSeries hostFeeShare_nodes in
  Forall valueIsQuotient fees ->
  Forall valueIsQuotient shares ->
  (length (inMonth m fees) <= 1)%nat ->
  (forall status, (length (inMonth m (withStatus status shares)) <= 1)%nat) ->
  (inMonth m fees = [] -> inMonth m shares = []) ->
  exists (profit : Series) (rest : list Series)
         (profitCents : option Z) (shareCents : list (option Z)),
    getSeriesFromData timeSeries = profit :: rest /\
    data profit !! fin_to_nat m = Some (shown profitCents) /\
    Forall2 (fun s cents => data s !! fin_to_nat m = Some (shown cents))
            rest shareCents /\
    default 0 profitCents + foldr Z.add 0 (default 0 <$> shareCents) =
    monthCents m fees.
Proof.
  intros fees shares Hfees Hshares Hone Hstatus Horphan.
  destruct (groupBy_exact shares) as (_ & Hexact & _).
  eexists _, _, (lastCents m (getHostFeesWithoutShare fees shares)),
    ((fun g => lastCents m (snd g)) <$> groupBy shares).
  split; [reflexivity|]. split; [|split].
  - simpl. apply dataToSeries_shown. by apply valueIsQuotient_withoutShare.
  - apply Forall2_fmap, Forall_Forall2_diag.
    eapply Forall_impl; [exact Hexact|]. intros g Hg. simpl.
    apply dataToSeries_shown. rewrite Hg. unfold withStatus.
    apply Forall_forall. intros node [_ Hnode]%list_elem_of_filter.
    rewrite Forall_forall in Hshares. by apply Hshares.
  - assert (Hsum : foldr Z.add 0
                     (default 0 <$> ((fun g => lastCents m (snd g)) <$> groupBy shares))
                   = shareTotal shares (Some m)).
    { rewrite <- monthCents_shareTotal, <- groupsCents_groupBy.
      induction Hexact as [|g groups Hg _ IH]; [done|].
      rewrite !fmap_cons. simpl. rewrite IH. f_equal.
      apply lastCents_single. rewrite Hg. apply Hstatus. }
    rewrite Hsum. unfold HostFees.lastCents.
    rewrite inMonth_getHostFeesWithoutShare.
    destruct (inMonth m fees) as [|r [|r' more]] eqn:Hin; simpl in Hone; [| |lia].
    + rewrite <- monthCents_shareTotal. unfold HostFees.monthCents.
      rewrite Hin, (Horphan eq_refl). done.
    + assert (Hr : r ∈ inMonth m fees) by (rewrite Hin; left).
      apply list_elem_of_filter in Hr as [Hm _].
      unfold HostFees.monthCents. rewrite Hin. simpl.
      rewrite (withoutShare_total getMonth), Hm.
      destruct (Z.eqb_spec (shareTotal shares (Some m)) 0) as [Ht|Ht]; simpl; lia.
Qed.

End Series.

(** *** The statements above on the sample inputs *)

(** Scenario C of the specification: 10.00 of fees and 3.00 of fee share in
    January chart as 7.00 of profit and 3.00 of fee share. *)
Example scenario_settled :
  map (fun s => (name s, Qred <$> data s))
      (getSeriesFromData isoMonth rawLabel (Some sampleSettled)) =
  [("Host profit", [7; 0; 5; 0; 0; 0; 0; 0; 0; 0; 0; 0]%Q);
   ("Host fee share (INVOICED)", [3; 0; 0; 0; 0; 0; 0; 0; 0; 0; 0; 0]%Q)].
Proof. vm_compute. reflexivity. Qed.

(** Scenario D: without records the chart is one series of twelve zeros. *)
Example scenario_no_records :
  getSeriesFromData isoMonth rawLabel None =
  [mkSeries "Host profit" (replicate 12 0%Q)].
Proof. reflexivity. Qed.

(** The netting contract on the January fee of [sampleSettled]. *)
Lemma netting_contract_witness :
  let fees := nodesOf (Some sampleSettled) hostFees_nodes in
  let shares := nodesOf (Some sampleSettled) hostFeeShare_nodes in
  fees !! 0%nat = Some (feeNode january 1000) /\
  monthKey isoMonth (feeNode january 1000) = Some 0%fin /\
  shareTotal isoMonth shares (Some 0%fin) = 300 /\
  exists r', getHostFeesWithoutShare isoMonth fees shares !! 0%nat = Some r' /\
    valueInCents (amount r') = 700.
Proof.
  intros fees shares.
  split; [reflexivity|]. split; [reflexivity|]. split; [reflexivity|].
  destruct (netting_contract isoMonth fees shares 0 (feeNode january 1000) 0%fin
              eq_refl eq_refl) as [Hnet _].
  destruct Hnet as (r' & Hr' & Hcents & _); [vm_compute; discriminate|].
  exists r'. split; [exact Hr'|]. rewrite Hcents. reflexivity.
Defined.

(** The frame property on the March fee of [sampleSettled]. *)
Lemma netting_frame_witness :
  let fees := nodesOf (Some sampleSettled) hostFees_nodes in
  let shares := nodesOf (Some sampleSettled) hostFeeShare_nodes in
  fees !! 1%nat = Some (feeNode march 500) /\
  exists r', getHostFeesWithoutShare isoMonth fees shares !! 1%nat = Some r' /\
    date r' = march /\ currency (amount r') = "USD".
Proof.
  intros fees shares. split; [reflexivity|].
  destruct (netting_frame isoMonth fees shares) as [_ Hframe].
  destruct (Hframe 1%nat (feeNode march 500) eq_refl) as (r' & Hr' & Hd & _ & Hc).
  exists r'. split; [exact Hr'|]. split; [exact Hd|exact Hc].
Defined.

(** Twelve slots, and a zero in February, for [sampleSettled]. *)
Lemma series_have_twelve_slots_witness :
  let out := getSeriesFromData isoMonth rawLabel (Some sampleSettled) in
  inMonth isoMonth 1%fin (nodesOf (Some sampleSettled) hostFees_nodes) = [] /\
  Forall (fun s => length (data s) = 12%nat) out /\
  exists profit, out !! 0%nat = Some profit /\ data profit !! 1%nat = Some 0%Q.
Proof.
  intros out. split; [reflexivity|].
  destruct (series_have_twelve_slots isoMonth rawLabel (Some sampleSettled))
    as (Hlen & (profit & Hprofit & Hzero) & _).
  split; [exact Hlen|]. exists profit. split; [exact Hprofit|].
  apply (Hzero 1%fin). reflexivity.
Defined.

(** The round trip in January for [sampleSettled]: the slots show 700 and
    300 over 100, and 700 + 300 is the 1000 of the gross fee. *)
Lemma round_trip_in_cents_witness :
  let fees := nodesOf (Some sampleSettled) hostFees_nodes in
  let shares := nodesOf (Some sampleSettled) hostFeeShare_nodes in
  Forall valueIsQuotient fees /\
  Forall valueIsQuotient shares /\
  (length (inMonth isoMonth 0%fin fees) <= 1)%nat /\
  monthCents isoMonth 0%fin fees = 1000 /\
  exists (profit : Series) (rest : list Series)
         (profitCents : option Z) (shareCents : list (option Z)),
    getSeriesFromData isoMonth rawLabel (Some sampleSettled) = profit :: rest /\
    data profit !! 0%nat = Some (shown profitCents) /\
    Forall2 (fun s cents => data s !! 0%nat = Some (shown cents)) rest shareCents /\
    default 0 profitCents + foldr Z.add 0 (default 0 <$> shareCents) = 1000.
Proof.
  intros fees shares.
  assert (Hfees : Forall valueIsQuotient fees) by (repeat constructor).
  assert (Hshares : Forall valueIsQuotient shares) by (repeat constructor).
  split; [exact Hfees|]. split; [exact Hshares|].
  split; [vm_compute; lia|]. split; [reflexivity|].
  apply (round_trip_in_cents isoMonth rawLabel (Some sampleSettled) 0%fin Hfees Hshares).
  - vm_compute. lia.
  - intros status. do 2 (etrans; [apply length_filter|]). simpl. lia.
  - vm_compute. discriminate.
Defined.

(** C1, as stated, fails.  With two settlement records of one status in
    January the status series keeps the last one (2.00) while netting
    subtracts both (10.00 - 5.00): 5 + 2 is not 10.  With a settlement record
    in March and no gross fee record there, the March slots add up to 3, not
    to 0. *)
Lemma round_trip_counterexample :
  ~ roundTripClaim isoMonth rawLabel (Some sampleTwice) /\
  ~ roundTripClaim isoMonth rawLabel (Some sampleOrphan).
Proof.
  split; intros Hclaim.
  - assert (Hat : roundTripAt isoMonth rawLabel (Some sampleTwice) 0%fin).
    { apply Hclaim. intros m. etrans; [apply length_filter|]. simpl. lia. }
    vm_compute in Hat. discriminate Hat.
  - assert (Hat : roundTripAt isoMonth rawLabel (Some sampleOrphan) 2%fin).
    { apply Hclaim. intros m. etrans; [apply length_filter|]. simpl. lia. }
    vm_compute in Hat. discriminate Hat.
Qed.

(** ** The year selector *)

Section Years.

Lemma decimalDigit_char (c : Ascii.ascii) (v : Z) :
  decimalDigit c = Some v ->
  isWhiteSpace c = false /\ Ascii.eqb c "-" = false /\ Ascii.eqb c "+" = false /\
  Ascii.eqb c "0" && (Ascii.eqb c "x" || Ascii.eqb c "X") = false /\
  Ascii.eqb c "x" = false /\ Ascii.eqb c "X" = false /\
  digitOf 10 c = Some v /\ 0 <= v <= 9.
Proof.
  destruct c as [[] [] [] [] [] [] [] []]; vm_compute; intros Hv;
    try discriminate Hv; injection Hv as <-;
    repeat split; (reflexivity || discriminate).
Qed.

(** On a timestamp that starts with four digits and a dash, the code reads
    the year those digits write. *)
Lemma parseInt_leadingYear (s : string) (y : Z) :
  leadingYear s = Some y -> parseInt (beforeDash s) = Some y /\ 0 <= y <= 9999.
Proof.
  unfold leadingYear.
  destruct s as [|a [|b [|c [|d [|e rest]]]]]; try discriminate.
  destruct (Ascii.eqb_spec e "-") as [->|He].
  2:{ destruct e as [[] [] [] [] [] [] [] []]; try discriminate; done. }
  destruct (decimalDigit a) as [va|] eqn:Ha; [|discriminate].
  destruct (decimalDigit b) as [vb|] eqn:Hb; [|discriminate].
  destruct (decimalDigit c) as [vc|] eqn:Hc; [|discriminate].
  destruct (decimalDigit d) as [vd|] eqn:Hd; [|discriminate].
  simpl. intros [= <-].
  apply decimalDigit_char in Ha as (Wa & Ma & Pa & _ & _ & _ & Da & Ra).
  apply decimalDigit_char in Hb as (_ & Mb & _ & _ & Xb & XXb & Db & Rb).
  apply decimalDigit_char in Hc as (_ & Mc & _ & _ & _ & _ & Dc & Rc).
  apply decimalDigit_char in Hd as (_ & Md & _ & _ & _ & _ & Dd & Rd).
  split; [|lia].
  unfold parseInt. simpl beforeDash. rewrite Ma, Mb, Mc, Md. simpl beforeDash.
  unfold trimStart. rewrite Wa. unfold stripSign. rewrite Ma, Pa.
  unfold stripPrefix. rewrite Xb, XXb, andb_false_r.
  simpl. rewrite Da. simpl. rewrite Db. simpl. rewrite Dc. simpl. rewrite Dd.
  simpl. f_equal. lia.
Qed.

Lemma arrayKeys_lookup (n : Z) (keys : list Z) :
  arrayKeys n = Some keys ->
  length keys = Z.to_nat n /\
  forall i : nat, (i < length keys)%nat -> keys !! i = Some (Z.of_nat i).
Proof.
  unfold arrayKeys. destruct (_ && _); [|discriminate]. intros [= <-].
  rewrite length_fmap, length_seq. split; [done|].
  intros i Hi. rewrite list_lookup_fmap, lookup_seq_lt by done. done.
Qed.

(** C9, amended. Available years: for a loaded host whose creation timestamp
    starts with a four-digit year that is at most one after the current year,
    the options are the consecutive years from that year through the current
    year, in increasing order, each as value and label, and there is none
    when that year is the one after the current year; without a host the
    only option is the current year. *)
Theorem active_years_options (currentYear : Z) :
  getActiveYearsOptions currentYear None =
    Some [YearOption.mk currentYear currentYear] /\
  forall (host : Host) (firstYear : Z),
    leadingYear (createdAt host) = Some firstYear ->
    firstYear <= currentYear + 1 ->
    currentYear <= 275760 ->
    exists options,
      getActiveYearsOptions currentYear (Some host) = Some options /\
      length options = Z.to_nat (currentYear - firstYear + 1) /\
      forall i : nat, (i < length options)%nat ->
        options !! i =
        Some (YearOption.mk (firstYear + Z.of_nat i) (firstYear + Z.of_nat i)).
Proof.
  split.
  - unfold getActiveYearsOptions. simpl.
    replace (currentYear - currentYear + 1) with 1 by lia. reflexivity.
  - intros host firstYear Hyear Hle Hmax.
    apply parseInt_leadingYear in Hyear as [Hparse Hrange].
    unfold getActiveYearsOptions. rewrite Hparse. simpl.
    destruct (arrayKeys (currentYear - firstYear + 1)) as [keys|] eqn:Hkeys.
    2:{ unfold arrayKeys in Hkeys.
        destruct (Z.leb_spec 0 (currentYear - firstYear + 1)); [|lia].
        destruct (Z.ltb_spec (currentYear - firstYear + 1) (2 ^ 32)); [done|lia]. }
    apply arrayKeys_lookup in Hkeys as [Hlen Hkeys]. simpl.
    eexists. split; [reflexivity|]. rewrite !length_map. split; [done|].
    intros i Hi. rewrite !list_lookup_fmap, (Hkeys i Hi). simpl.
    do 2 f_equal; lia.
Qed.

(** A creation year two years ahead of the clock makes [Array] throw. *)
Example active_years_clock_behind :
  getActiveYearsOptions 2021 (Some (mkHost "2023-05-01T00:00:00.000Z")) = None.
Proof. reflexivity. Qed.

(** C9, as stated, fails for a host created two years after the year of the
    browser's clock: the years from 2023 through 2021 are none, yet the code
    returns no list, [Array(-1)] throws a RangeError. *)
Lemma active_years_options_counterexample :
  leadingYear "2023-05-01T00:00:00.000Z" = Some 2023 /\
  yearsThrough 2023 2021 = [] /\
  ~ activeYearsClaim 2021 (Some (mkHost "2023-05-01T00:00:00.000Z")).
Proof.
  split; [reflexivity|]. split; [reflexivity|].
  intros Hclaim. specialize (Hclaim 2023 eq_refl). discriminate Hclaim.
Qed.

End Years.

(** A host created in 2018, seen in 2021: the fourth option is 2021. *)
Lemma active_years_options_witness :
  leadingYear "2018-05-01T00:00:00.000Z" = Some 2018 /\
  exists options,
    getActiveYearsOptions 2021 (Some (mkHost "2018-05-01T00:00:00.000Z")) = Some options /\
    options !! 3%nat = Some (YearOption.mk 2021 2021).
Proof.
  split; [reflexivity|].
  destruct (active_years_options 2021) as [_ Hloaded].
  destruct (Hloaded (mkHost "2018-05-01T00:00:00.000Z") 2018 eq_refl)
    as (options & Hoptions & Hlen & Hnth); [lia|lia|].
  exists options. split; [exact Hoptions|].
  apply (Hnth 3%nat). rewrite Hlen. vm_compute. lia.
Defined.

(** ** Further properties of netting and charting *)

Section MoreNetting.

Context (getMonth : string -> option (fin 12)).

Local Abbreviation monthKey := (HostFees.monthKey getMonth).
Local Abbreviation addShare := (HostFees.addShare getMonth).
Local Abbreviation totals := (HostFees.totalHostFeeSharePerMonthInCents getMonth).
Local Abbreviation withoutShare := (HostFees.withoutShare getMonth).
Local Abbreviation getHostFeesWithoutShare := (HostFees.getHostFeesWithoutShare getMonth).
Local Abbreviation shareTotal := (HostFees.shareTotal getMonth).
Local Abbreviation writeSlot := (HostFees.writeSlot getMonth).
Local Abbreviation dataToSeries := (HostFees.dataToSeries getMonth).
Local Abbreviation inMonth := (HostFees.inMonth getMonth).
Local Abbreviation monthCents := (HostFees.monthCents getMonth).

(** X1. Netting changes nothing when the settlement total is zero in every
    month that holds a gross fee record, and in particular when there is no
    settlement record at all: the gross stream is returned as it is. *)
Theorem netting_nothing_to_net fees shares :
  Forall (fun r => shareTotal shares (monthKey r) = 0) fees ->
  getHostFeesWithoutShare fees shares = fees /\
  getHostFeesWithoutShare fees [] = fees.
Proof.
  intros Hzero. unfold HostFees.getHostFeesWithoutShare. split.
  - induction Hzero as [|r fees Hr _ IH]; [done|]. simpl.
    by rewrite IH, (withoutShare_total getMonth), Hr.
  - clear Hzero. induction fees as [|r fees IH]; [done|]. simpl.
    by rewrite IH, (withoutShare_total getMonth).
Qed.

(** X2. Netting keeps the invariant of the data model: when every gross fee
    record has its major-unit value equal to its minor-unit value over 100,
    so has every record of the net-profit stream. *)
Theorem netting_keeps_consistency fees shares :
  Forall consistent fees ->
  Forall consistent (getHostFeesWithoutShare fees shares).
Proof.
  intros Hfees. unfold HostFees.getHostFeesWithoutShare.
  apply Forall_fmap. eapply Forall_impl; [exact Hfees|].
  intros r Hr. simpl. rewrite (withoutShare_total getMonth).
  destruct (_ =? _); [done|]. unfold consistent, netted. simpl. reflexivity.
Qed.

Lemma monthCents_cons (m : fin 12) node nodes :
  monthCents m (node :: nodes) =
  if decide (monthKey node = Some m)
  then valueInCents (amount node) + monthCents m nodes
  else monthCents m nodes.
Proof.
  unfold HostFees.monthCents, HostFees.inMonth. rewrite filter_cons.
  by case_decide.
Qed.

(** X3. The settlement total of a month is subtracted from each gross fee
    record of that month: with [n] gross fee records in month [m], the net
    minor-unit amounts of the month add up to the gross amounts minus [n]
    times the settlement total. *)
Theorem netting_month_cents fees shares (m : fin 12) :
  monthCents m (getHostFeesWithoutShare fees shares) =
  monthCents m fees
  - Z.of_nat (length (inMonth m fees)) * shareTotal shares (Some m).
Proof.
  unfold HostFees.getHostFeesWithoutShare.
  induction fees as [|r fees IH]; [done|].
  simpl map. rewrite !monthCents_cons, (monthKey_withoutShare getMonth), IH.
  unfold HostFees.inMonth. rewrite filter_cons.
  case_decide as Hm; [|done].
  rewrite (withoutShare_total getMonth), Hm.
  destruct (Z.eqb_spec (shareTotal shares (Some m)) 0) as [Ht|Ht];
    simpl length; [rewrite Ht|simpl]; lia.
Qed.

Lemma foldl_addShare_None shares : forall result k,
  foldl addShare result shares !! k = None <->
  result !! k = None /\ Forall (fun node => monthKey node <> k) shares.
Proof.
  induction shares as [|node shares IH]; intros result k; simpl.
  - split; [by intros ?; split|by intros [? _]].
  - rewrite IH, Forall_cons. unfold HostFees.addShare.
    destruct (decide (monthKey node = k)) as [<-|Hk].
    + rewrite lookup_insert_eq. split; [by intros [? _]|by intros (_ & ? & _)].
    + rewrite lookup_insert_ne by done. tauto.
Qed.

(** X4. The dictionary of settlement totals has a key for exactly the month
    keys under which a settlement record falls, and the value under a key is
    the sum of the minor-unit amounts of those records. *)
Theorem totals_keys_and_values shares (k : option (fin 12)) :
  (totals shares !! k = None <-> Forall (fun node => monthKey node <> k) shares) /\
  (forall t, totals shares !! k = Some t -> t = shareTotal shares k).
Proof.
  split.
  - unfold totalHostFeeSharePerMonthInCents.
    rewrite foldl_addShare_None, lookup_empty. tauto.
  - intros t Ht. rewrite <- (totals_lookup getMonth), Ht.
    by rewrite (orZero_Some t).
Qed.

(** X5. Last write wins: when several records fall in one month, the slot
    of the month holds the value of the last of them in source order. *)
Theorem last_write_wins before node after (m : fin 12) :
  monthKey node = Some m ->
  Forall (fun later => monthKey later <> Some m) after ->
  dataToSeries (Some (before ++ node :: after)) !! fin_to_nat m =
  Some (value (amount node)).
Proof.
  intros Hm Hafter. rewrite (dataToSeries_lookup getMonth).
  unfold HostFees.inMonth. rewrite filter_app, filter_cons, decide_True by done.
  assert (Hnone : filter (fun n => monthKey n = Some m) after = []).
  { induction Hafter as [|x l Hx _ IH]; [done|].
    by rewrite filter_cons, decide_False. }
  by rewrite Hnone, last_snoc.
Qed.

Lemma foldl_writeSlot_valid nodes : forall series,
  foldl writeSlot series nodes =
  foldl writeSlot series (filter (fun node => is_Some (monthKey node)) nodes).
Proof.
  induction nodes as [|node nodes IH]; intros series; [done|].
  rewrite filter_cons. simpl. rewrite IH.
  destruct (decide (is_Some (monthKey node))) as [Hv|Hv]; [done|].
  unfold HostFees.writeSlot at 2.
  destruct (monthKey node); [|done]. exfalso. apply Hv. by eexists.
Qed.

(** X6. A record whose date is invalid is never charted: the series of a
    list of records is the series of its records with a valid date. *)
Theorem invalid_dates_not_charted nodes :
  dataToSeries (Some nodes) =
  dataToSeries (Some (filter (fun node => is_Some (monthKey node)) nodes)).
Proof. unfold HostFees.dataToSeries. simpl. apply foldl_writeSlot_valid. Qed.

End MoreNetting.

(** A gross fee of 10.00 in January against 3.00 and -3.00 of fee share:
    the total is zero and nothing is netted. *)
Lemma netting_nothing_to_net_witness :
  let fees := [feeNode january 1000] in
  let shares := [shareNode january "INVOICED" 300; shareNode january "SETTLED" (-300)] in
  Forall (fun r => shareTotal isoMonth shares (monthKey isoMonth r) = 0) fees /\
  getHostFeesWithoutShare isoMonth fees shares = fees.
Proof.
  intros fees shares.
  assert (Hzero : Forall (fun r => shareTotal isoMonth shares (monthKey isoMonth r) = 0) fees).
  { repeat constructor. }
  split; [exact Hzero|].
  exact (proj1 (netting_nothing_to_net isoMonth fees shares Hzero)).
Defined.

(** The consistent fees of [sampleSettled] stay consistent. *)
Lemma netting_keeps_consistency_witness :
  let fees := nodesOf (Some sampleSettled) hostFees_nodes in
  let shares := nodesOf (Some sampleSettled) hostFeeShare_nodes in
  Forall consistent fees /\
  Forall consistent (getHostFeesWithoutShare isoMonth fees shares).
Proof.
  intros fees shares.
  assert (Hfees : Forall consistent fees).
  { repeat constructor; unfold consistent; simpl; reflexivity. }
  split; [exact Hfees|].
  exact (netting_keeps_consistency isoMonth fees shares Hfees).
Defined.

(** Two January settlements of one status: the later one, 2.00, is shown. *)
Lemma last_write_wins_witness :
  monthKey isoMonth (shareNode january "INVOICED" 200) = Some 0%fin /\
  dataToSeries isoMonth
    (Some ([shareNode january "INVOICED" 300]
           ++ shareNode january "INVOICED" 200 :: [shareNode march "INVOICED" 100]))
    !! 0%nat = Some (inject_Z 200 / 100)%Q.
Proof.
  split; [reflexivity|].
  apply (last_write_wins isoMonth [shareNode january "INVOICED" 300]
           (shareNode january "INVOICED" 200) [shareNode march "INVOICED" 100] 0%fin).
  - reflexivity.
  - repeat constructor. vm_compute. discriminate.
Defined.

Section MoreSeries.

Context (getMonth : string -> option (fin 12)) (i18n : string -> string).
Context (formatMonth : nat -> string) (toUpperCase : string -> string).
Context (formatCurrency : Q -> option string -> string).

Local Abbreviation getSeriesFromData := (HostFees.getSeriesFromData getMonth i18n).
Local Abbreviation getChartOptions :=
  (HostFees.getChartOptions formatMonth toUpperCase formatCurrency).




Lemma foldl_pushGroup_prefix nodes : forall groups,
  groups.*1 `prefix_of`
  (foldl (fun groups node => pushGroup (statusKey node) node groups) groups nodes).*1.
Proof.
  induction nodes as [|node nodes IH]; intros groups; simpl; [done|].
  etrans; [|apply IH]. rewrite pushGroup_keys.
  case_decide; [done|]. by apply prefix_app_r.
Qed.

Lemma names_of_statusSeries (groups : list (string * list Node)) :
  name <$> map (HostFees.statusSeries getMonth i18n) groups =
  (fun k => "Host fee share (" ++ i18n k ++ ")")%string <$> groups.*1.
Proof.
  induction groups as [|g groups IH]; [done|].
  simpl map. rewrite !fmap_cons, IH. done.
Qed.

(** X8. When no settlement status is written with digits only (such keys
    [Object.entries] would move to the front), further settlement records
    never reorder the series: the names of the series of a chart begin the
    names of the series of the chart made after more settlement records have
    come in at the end, whatever the gross fee records. *)
Theorem series_order_stable fees fees' shares more :
  Forall (fun node => indexLike (statusKey node) = false) (shares ++ more) ->
  name <$> getSeriesFromData (Some (mkTimeSeries fees (Some shares)))
  `prefix_of`
  name <$> getSeriesFromData (Some (mkTimeSeries fees' (Some (shares ++ more)))).
Proof.
  intros _. unfold HostFees.getSeriesFromData, nodesOf.
  cbn [mbind option_bind hostFeeShare_nodes default from_option].
  rewrite !fmap_cons. apply prefix_cons.
  rewrite !names_of_statusSeries. unfold Datatypes.id.
  assert (Hkeys : (groupBy shares).*1 `prefix_of` (groupBy (shares ++ more)).*1).
  { unfold groupBy at 2. rewrite foldl_app. apply foldl_pushGroup_prefix. }
  destruct Hkeys as [rest ->]. rewrite fmap_app. by eexists.
Qed.

(** X9. The chart has one category on the x axis for each slot of each
    series it is given. *)
Theorem one_category_per_slot timeSeries hostCurrency (s : Series) :
  s ∈ getSeriesFromData timeSeries ->
  length (data s) = length (xaxis_categories (getChartOptions hostCurrency)).
Proof.
  intros Hs.
  pose proof (all_series_twelve_slots getMonth i18n timeSeries) as Hall.
  rewrite Forall_forall in Hall. rewrite (Hall _ Hs). reflexivity.
Qed.

End MoreSeries.

(** ** The axis labels, the query and the years *)

Section Labels.

(** X10. The y axis shows a value below 1000, a negative one included, as
    the number itself, and a value of at least 1000 as a whole number of
    thousands followed by k, the nearest one, a half going up. *)
Theorem yaxis_label (value : Q) :
  ((value < 1000)%Q -> yaxisFormatter value = inl value) /\
  ((1000 <= value)%Q ->
   exists n : Z,
     yaxisFormatter value = inr (pretty n +:+ "k") /\
     1 <= n /\
     (inject_Z n * 1000 - 500 <= value)%Q /\ (value < inject_Z n * 1000 + 500)%Q).
Proof.
  unfold yaxisFormatter. split; intros Hv.
  - destruct (Qlt_le_dec value 1000) as [_|Hge]; [done|].
    exfalso. apply (Qlt_not_le _ _ Hv Hge).
  - destruct (Qlt_le_dec value 1000) as [Hlt|_].
    { exfalso. apply (Qlt_not_le _ _ Hlt Hv). }
    exists (Math_round (value / 1000)). split; [done|].
    unfold Math_round. set (x := (value / 1000 + (1 # 2))%Q).
    assert (Hx : (value == (x - (1 # 2)) * 1000)%Q) by (subst x; field).
    clearbody x.
    pose proof (Qfloor_le x) as Hlo. pose proof (Qlt_floor x) as Hhi.
    rewrite inject_Z_plus in Hhi.
    change (inject_Z 1) with 1%Q in Hhi.
    split.
    { assert (H1 : (inject_Z 1 <= x)%Q) by (change (inject_Z 1) with 1%Q; lra).
      apply Qfloor_resp_le in H1. by rewrite Qfloor_Z in H1. }
    set (n := inject_Z (Qfloor x)) in *. clearbody n. split; lra.
Qed.

Lemma yaxis_label_witness :
  (1000 <= 2500)%Q /\ yaxisFormatter 2500 = inr "3k" /\
  (-25 < 1000)%Q /\ yaxisFormatter (-25) = inl (-25)%Q.
Proof.
  split; [discriminate|]. split; [reflexivity|]. split; [reflexivity|].
  apply (proj1 (yaxis_label (-25))). reflexivity.
Defined.

End Labels.

Section MoreYears.

(** X11. Whatever the host and its creation timestamp, when the selector
    gets options they are consecutive years in increasing order that end
    with the current year, each labelled with its own value. *)
Theorem active_years_end_now (currentYear : Z) (host : option Host)
    (options : list YearOption.t) :
  getActiveYearsOptions currentYear host = Some options ->
  forall (i : nat) (o : YearOption.t), options !! i = Some o ->
    YearOption.value o = currentYear - Z.of_nat (length options - 1 - i) /\
    YearOption.label o = YearOption.value o.
Proof.
  unfold getActiveYearsOptions. intros Hopt i o Ho.
  destruct (match host with
            | Some h => parseInt (beforeDash (createdAt h))
            | None => Some currentYear
            end) as [firstYear|]; [|discriminate].
  simpl in Hopt.
  destruct (arrayKeys (currentYear - firstYear + 1)) as [keys|] eqn:Hkeys;
    [|discriminate].
  assert (Hn : 0 <= currentYear - firstYear + 1).
  { unfold arrayKeys in Hkeys.
    destruct (Z.leb_spec 0 (currentYear - firstYear + 1)); [done|discriminate]. }
  apply arrayKeys_lookup in Hkeys as [Hlen Hkeys].
  simpl in Hopt. injection Hopt as <-.
  rewrite !List.length_map, Hlen.
  apply lookup_lt_Some in Ho as Hi. rewrite !List.length_map in Hi.
  change (map ?f ?l) with (f <$> l) in Ho.
  rewrite !list_lookup_fmap, (Hkeys i Hi) in Ho. simpl in Ho.
  injection Ho as <-. simpl. split; [lia|done].
Qed.

(** X12. For a host whose creation timestamp starts with a four-digit
    year, the selector gets options exactly when that year is at most one
    after the current year, and it gets the empty list of options exactly
    when it is one after the current year; a later year makes [Array]
    throw. *)
Theorem active_years_future_host (currentYear : Z) (host : Host) (firstYear : Z) :
  leadingYear (createdAt host) = Some firstYear ->
  currentYear <= 275760 ->
  (is_Some (getActiveYearsOptions currentYear (Some host)) <->
   firstYear <= currentYear + 1) /\
  (getActiveYearsOptions currentYear (Some host) = Some [] <->
   firstYear = currentYear + 1).
Proof.
  intros Hyear Hmax.
  apply parseInt_leadingYear in Hyear as [Hparse Hrange].
  unfold getActiveYearsOptions. rewrite Hparse. simpl.
  set (n := currentYear - firstYear + 1).
  destruct (arrayKeys n) as [keys|] eqn:Hkeys; simpl.
  - assert (Hn : 0 <= n).
    { unfold arrayKeys in Hkeys. destruct (Z.leb_spec 0 n); [done|discriminate]. }
    apply arrayKeys_lookup in Hkeys as [Hlen _].
    split; [split; [lia|by eexists]|].
    split.
    + intros [= Hnil]. destruct keys; [|discriminate]. simpl in Hlen. lia.
    + intros Hnext. destruct keys; [done|]. simpl in Hlen. lia.
  - assert (Hn : n < 0).
    { unfold arrayKeys in Hkeys. destruct (Z.leb_spec 0 n); [|done].
      destruct (Z.ltb_spec n (2 ^ 32)); [discriminate|lia]. }
    split; [split; [by intros [? ?]|lia]|]. split; [done|lia].
Qed.

Lemma active_years_end_now_witness :
  getActiveYearsOptions 2021 (Some (mkHost "2018-05-01T00:00:00.000Z")) =
    Some (map (fun y => YearOption.mk y y) [2018; 2019; 2020; 2021]) /\
  YearOption.value (YearOption.mk 2019 2019) = 2021 - Z.of_nat (4 - 1 - 1).
Proof.
  split; [reflexivity|].
  apply (active_years_end_now 2021 (Some (mkHost "2018-05-01T00:00:00.000Z"))
           (map (fun y => YearOption.mk y y) [2018; 2019; 2020; 2021])
           eq_refl 1%nat (YearOption.mk 2019 2019) eq_refl).
Defined.

Lemma active_years_future_host_witness :
  leadingYear "2022-05-01T00:00:00.000Z" = Some 2022 /\
  getActiveYearsOptions 2021 (Some (mkHost "2022-05-01T00:00:00.000Z")) = Some [].
Proof.
  split; [reflexivity|].
  apply (active_years_future_host 2021 (mkHost "2022-05-01T00:00:00.000Z") 2022);
    [reflexivity|lia|lia].
Defined.

(** *** The year written into the query *)

Lemma decimalDigit_pretty_N_char (d : N) :
  (d < 10)%N -> decimalDigit (pretty_N_char d) = Some (Z.of_N d).
Proof.
  intros Hd.
  assert (d = 0 \/ d = 1 \/ d = 2 \/ d = 3 \/ d = 4 \/ d = 5 \/ d = 6 \/
          d = 7 \/ d = 8 \/ d = 9)%N as Hcases by lia.
  repeat (destruct Hcases as [->|Hcases]; [reflexivity|]). by subst.
Qed.

Lemma allDigits_pretty_N_go (x : N) : forall s,
  allDigits s = true -> allDigits (pretty_N_go x s) = true.
Proof.
  induction (N.lt_wf_0 x) as [x _ IH]; intros s Hs.
  destruct (decide (x = 0)%N) as [->|Hx]; [done|].
  rewrite pretty_N_go_step by lia.
  apply IH; [apply N.div_lt; lia|]. simpl.
  rewrite (decimalDigit_pretty_N_char (x `mod` 10)) by (apply N.mod_lt; lia).
  rewrite bool_decide_eq_true_2 by (by eexists). done.
Qed.

Lemma digitsPrefix_pretty_N_go (x : N) : forall s,
  digitsPrefix 10 (pretty_N_go x s) None =
  digitsPrefix 10 s (if decide (x = 0)%N then None else Some (Z.of_N x)).
Proof.
  induction (N.lt_wf_0 x) as [x _ IH]; intros s.
  destruct (decide (x = 0)%N) as [->|Hx]; [done|].
  rewrite pretty_N_go_step by lia.
  rewrite IH by (apply N.div_lt; lia). simpl.
  assert (Hmod : (x `mod` 10 < 10)%N) by (apply N.mod_lt; lia).
  destruct (decimalDigit_char _ _ (decimalDigit_pretty_N_char _ Hmod))
    as (_ & _ & _ & _ & _ & _ & -> & _).
  f_equal. f_equal.
  assert (Hdiv : x = (10 * (x `div` 10) + x `mod` 10)%N) by (apply N.div_mod; lia).
  case_decide as H0; simpl; lia.
Qed.

Lemma beforeDash_digits (d rest : string) :
  allDigits d = true -> beforeDash (d +:+ String "-"%char rest) = d.
Proof.
  induction d as [|c d IH]; simpl; [done|].
  intros [Hc Hd]%andb_true_iff. apply bool_decide_eq_true in Hc as [v Hv].
  destruct (decimalDigit_char c v Hv) as (_ & -> & _). by rewrite IH.
Qed.

Lemma parseInt_digits (d : string) :
  allDigits d = true -> d <> EmptyString ->
  parseInt d = digitsPrefix 10 d None.
Proof.
  destruct d as [|c d]; [done|]. simpl. intros [Hc Hd]%andb_true_iff _.
  apply bool_decide_eq_true in Hc as [v Hv].
  destruct (decimalDigit_char c v Hv) as (Wc & Mc & Pc & _ & _ & _ & Dc & _).
  unfold parseInt. unfold trimStart. rewrite Wc. unfold stripSign. rewrite Mc, Pc.
  assert (Hprefix : stripPrefix (String c d) = (10, String c d)).
  { unfold stripPrefix. destruct d as [|c' d]; [done|].
    simpl in Hd. apply andb_true_iff in Hd as [Hc' _].
    apply bool_decide_eq_true in Hc' as [v' Hv'].
    destruct (decimalDigit_char c' v' Hv') as (_ & _ & _ & _ & -> & -> & _).
    by rewrite andb_false_r. }
  rewrite Hprefix.
  assert (Hone : forall o : option Z, Z.mul 1 <$> o = o).
  { intros [n|]; simpl; [f_equal; lia|done]. }
  by rewrite Hone.
Qed.

(** X13. The year written into the date range of a query reads back: for a
    year that is not negative, the part of [dateFrom], and of [dateTo],
    before the first dash parses to that year. *)
Theorem query_year_reads_back (slug : string) (year : Z) :
  0 <= year ->
  parseInt (beforeDash (dateFrom (getQueryVariables slug year))) = Some year /\
  parseInt (beforeDash (dateTo (getQueryVariables slug year))) = Some year.
Proof.
  intros Hyear. simpl.
  assert (Hpretty : allDigits (pretty year) = true /\ pretty year <> EmptyString /\
                    digitsPrefix 10 (pretty year) None = Some year).
  { destruct year as [|p|p]; [done| |lia].
    change (pretty (Z.pos p)) with (pretty_N_go (N.pos p) "").
    split; [by apply allDigits_pretty_N_go|]. split.
    - intros E. pose proof (digitsPrefix_pretty_N_go (N.pos p) "") as Hd.
      rewrite E in Hd. simpl in Hd. discriminate.
    - by rewrite digitsPrefix_pretty_N_go. }
  destruct Hpretty as (Hdigits & Hne & Hvalue).
  change ("-01-01T00:00:00Z") with (String "-"%char "01-01T00:00:00Z").
  change ("-12-31T23:59:59Z") with (String "-"%char "12-31T23:59:59Z").
  rewrite !beforeDash_digits, parseInt_digits by done. done.
Qed.

Lemma query_year_reads_back_witness :
  0 <= 2021 /\
  dateFrom (getQueryVariables "opensource" 2021) = "2021-01-01T00:00:00Z" /\
  parseInt (beforeDash (dateFrom (getQueryVariables "opensource" 2021))) = Some 2021.
Proof.
  split; [lia|]. split; [reflexivity|].
  apply (query_year_reads_back "opensource" 2021). lia.
Defined.

End MoreYears.

(** January has a key in the dictionary of [sampleSettled], with 300. *)
Lemma totals_keys_and_values_witness :
  let shares := nodesOf (Some sampleSettled) hostFeeShare_nodes in
  totalHostFeeSharePerMonthInCents isoMonth shares !! Some 0%fin = Some 300 /\
  300 = shareTotal isoMonth shares (Some 0%fin) /\
  totalHostFeeSharePerMonthInCents isoMonth shares !! Some 2%fin = None.
Proof.
  intros shares.
  destruct (totals_keys_and_values isoMonth shares (Some 0%fin)) as [_ Hvalue].
  destruct (totals_keys_and_values isoMonth shares (Some 2%fin)) as [Hnone _].
  split; [reflexivity|]. split; [apply Hvalue; reflexivity|].
  apply Hnone. repeat constructor. vm_compute. discriminate.
Defined.

(** One INVOICED record, then one SETTLED record: the first two names
    stay. *)
Lemma series_order_stable_witness :
  let shares := [shareNode january "INVOICED" 300] in
  let more := [shareNode march "SETTLED" 100] in
  Forall (fun node => indexLike (statusKey node) = false) (shares ++ more) /\
  ["Host profit"; "Host fee share (INVOICED)"]
  `prefix_of`
  name <$> getSeriesFromData isoMonth rawLabel
             (Some (mkTimeSeries None (Some (shares ++ more)))).
Proof.
  intros shares more.
  assert (Hkeys : Forall (fun node => indexLike (statusKey node) = false)
                         (shares ++ more)) by (repeat constructor).
  split; [exact Hkeys|].
  exact (series_order_stable isoMonth rawLabel None None shares more Hkeys).
Defined.

(** The profit series of [sampleSettled] has as many slots as the axis has
    categories. *)
Lemma one_category_per_slot_witness :
  let profit := mkSeries "Host profit"
    (dataToSeries isoMonth (Some (getHostFeesWithoutShare isoMonth
       (nodesOf (Some sampleSettled) hostFees_nodes)
       (nodesOf (Some sampleSettled) hostFeeShare_nodes)))) in
  profit ∈ getSeriesFromData isoMonth rawLabel (Some sampleSettled) /\
  length (data profit) =
  length (xaxis_categories
            (getChartOptions (fun idx => pretty idx) (fun s => s)
               (fun v _ => "") (Some "USD"))).
Proof.
  intros profit.
  assert (Hin : profit ∈ getSeriesFromData isoMonth rawLabel (Some sampleSettled)).
  { left. }
  split; [exact Hin|].
  exact (one_category_per_slot isoMonth rawLabel (fun idx => pretty idx) (fun s => s)
           (fun v _ => "") (Some sampleSettled) (Some "USD") profit Hin).
Defined.

End HostFeesFacts.

(** * Properties of the roster *)

Module MembersFacts.
Import Members.

Lemma getMembersFromProps_present members invitations :
  getMembersFromProps (mkData (Some members) (Some invitations)) =
  match members ++ map omit_id invitations with
  | [] => EMPTY_MEMBERS
  | all => all
  end.
Proof.
  unfold getMembersFromProps. simpl.
  by destruct (members ++ map omit_id invitations).
Qed.

(** An absent sequence is not read as empty: [get] falls back on
    [EMPTY_MEMBERS], which has one element. *)
Lemma getMembersFromProps_defaults data :
  getMembersFromProps data =
  default EMPTY_MEMBERS (account_members_nodes data) ++
  map omit_id (default EMPTY_MEMBERS (memberInvitations data))
  \/ (account_members_nodes data = Some [] /\ memberInvitations data = Some [] /\
      getMembersFromProps data = EMPTY_MEMBERS).
Proof.
  destruct data as [[[|m ms]|] [[|i invs]|]]; unfold getMembersFromProps; simpl; auto.
Qed.

(** C2, as stated, fails: with the member sequence absent and one
    invitation the roster has two entries, the placeholder that stands in
    for the absent sequence and the invitation; with both sequences absent it
    has two placeholders. *)
Lemma roster_length_counterexample :
  ~ rosterLengthClaim (mkData None (Some [invitation])) /\
  ~ rosterLengthClaim (mkData None None).
Proof. split; intros Hclaim; vm_compute in Hclaim; discriminate Hclaim. Qed.

(** C2, amended. When both sequences are present, the roster has as many
    entries as members and invitations together, and exactly one, the
    placeholder, when both are empty. *)
Theorem roster_length members invitations :
  length (getMembersFromProps (mkData (Some members) (Some invitations))) =
  match members, invitations with
  | [], [] => 1%nat
  | _, _ => (length members + length invitations)%nat
  end.
Proof.
  rewrite getMembersFromProps_present.
  destruct members as [|m ms], invitations as [|i invs]; simpl;
    rewrite ?length_app; simpl; rewrite ?List.length_map; lia.
Qed.

(** C5, as stated, fails on two present and empty sequences: the roster is
    the placeholder, not the empty concatenation. *)
Lemma roster_composition_counterexample :
  ~ rosterCompositionClaim (mkData (Some []) (Some [])).
Proof. intros Hclaim. vm_compute in Hclaim. discriminate Hclaim. Qed.

(** C5, amended. When both sequences are present and not both empty, the
    roster is the member records in source order followed by the invitation
    records in source order with their identifier removed: an entry at a
    position below the number of members is that member, and an entry at a
    later position is an invitation without identifier. *)
Theorem roster_composition members invitations :
  members <> [] \/ invitations <> [] ->
  let roster := getMembersFromProps (mkData (Some members) (Some invitations)) in
  roster = members ++ map omit_id invitations /\
  forall (i : nat) (e : Entry), roster !! i = Some e ->
    ((i < length members)%nat /\ members !! i = Some e) \/
    ((length members <= i)%nat /\
     exists inv, invitations !! (i - length members)%nat = Some inv /\
       e = omit_id inv /\ id e = None).
Proof.
  intros Hne roster.
  assert (Hroster : roster = members ++ map omit_id invitations).
  { subst roster. rewrite getMembersFromProps_present.
    destruct members, invitations; simpl; try done. by destruct Hne. }
  split; [done|]. rewrite Hroster. intros i e He.
  apply lookup_app_Some in He as [He|[Hle He]].
  - left. split; [by eapply lookup_lt_Some|done].
  - right. split; [done|].
    rewrite list_lookup_fmap in He.
    destruct (invitations !! (i - length members)%nat) as [inv|]; [|done].
    injection He as <-. by exists inv.
Qed.

(** One admin and one invitation: the admin comes first, the invitation
    follows without its identifier. *)
Lemma roster_composition_witness :
  ([adminNode] <> [] \/ [invitation] <> []) /\
  getMembersFromProps (mkData (Some [adminNode]) (Some [invitation])) =
  [adminNode; omit_id invitation].
Proof.
  split; [left; discriminate|].
  destruct (roster_composition [adminNode] [invitation]) as [Hroster _];
    [left; discriminate|exact Hroster].
Defined.

(** *** The admin count and the last-admin flag *)

Lemma truthy_idPresent (m : Entry) : truthy (id m) = true <-> idPresent m.
Proof.
  unfold idPresent, truthy. destruct (id m) as [s|]; [|done].
  destruct (String.eqb_spec s ""); simpl; split; congruence.
Qed.

Lemma isAdminMember_spec (m : Entry) :
  isAdminMember m = true <-> role m = Some roles_ADMIN /\ idPresent m.
Proof.
  unfold isAdminMember.
  rewrite andb_true_iff, bool_decide_eq_true, truthy_idPresent. done.
Qed.

Lemma isAdminMember_omit_id (i : Entry) : isAdminMember (omit_id i) = false.
Proof. unfold isAdminMember. simpl. apply andb_false_r. Qed.

Lemma nbAdmins_app l1 l2 : nbAdmins (l1 ++ l2) = (nbAdmins l1 + nbAdmins l2)%nat.
Proof. unfold nbAdmins. by rewrite List.filter_app, length_app. Qed.

Lemma nbAdmins_omit_id invitations : nbAdmins (map omit_id invitations) = 0%nat.
Proof.
  unfold nbAdmins. induction invitations as [|i invs IH]; simpl; [done|].
  by rewrite isAdminMember_omit_id.
Qed.

(** C6. The admin count of a roster is the number of its entries whose role
    is ADMIN and whose identifier is present; on the roster built from the
    fetched data it is the count over the fetched members alone, so that
    neither a placeholder nor an invitation is counted. *)
Theorem admin_count :
  (forall roster : list Entry,
     nbAdmins roster =
     length (filter (fun m => role m = Some roles_ADMIN /\ idPresent m) roster)) /\
  (forall data : Data,
     nbAdmins (getMembersFromProps data) = nbAdmins (orEmpty (account_members_nodes data))) /\
  nbAdmins EMPTY_MEMBERS = 0%nat /\
  (forall invitations, nbAdmins (map omit_id invitations) = 0%nat).
Proof.
  split; [|split; [|split]].
  - intros roster. unfold nbAdmins.
    induction roster as [|m roster IH]; [done|].
    simpl. rewrite filter_cons.
    destruct (isAdminMember m) eqn:Hm; case_decide as Hspec; simpl.
    + by rewrite IH.
    + by apply isAdminMember_spec in Hm.
    + apply isAdminMember_spec in Hspec. congruence.
    + done.
  - intros data. unfold orEmpty.
    destruct (getMembersFromProps_defaults data) as [->|(-> & _ & ->)]; [|done].
    rewrite nbAdmins_app, nbAdmins_omit_id.
    destruct (account_members_nodes data); simpl; [lia|done].
  - reflexivity.
  - apply nbAdmins_omit_id.
Qed.

(** C7. The last-admin flag is set exactly when the admin count is 1, the
    role of the targeted entry is ADMIN and its identifier is present; it is
    not set when the targeted entry is an invitation of the roster, nor when
    no entry is targeted. *)
Theorem last_admin_flag :
  (forall (roster : list Entry) (target : Entry),
     flagSet (isLastAdmin (nbAdmins roster) (Some target)) = true <->
     nbAdmins roster = 1%nat /\ role target = Some roles_ADMIN /\ idPresent target) /\
  (forall (roster : list Entry) (inv : Entry),
     flagSet (isLastAdmin (nbAdmins roster) (Some (omit_id inv))) = false) /\
  (forall roster : list Entry,
     flagSet (isLastAdmin (nbAdmins roster) None) = false).
Proof.
  split; [|split].
  - intros roster target. unfold isLastAdmin. simpl.
    destruct (Nat.eqb_spec (nbAdmins roster) 1) as [Hn|Hn]; simpl.
    + destruct (bool_decide_reflect (role target = Some roles_ADMIN)) as [Hr|Hr]; simpl.
      * rewrite truthy_idPresent. tauto.
      * split; [done|tauto].
    + split; [done|tauto].
  - intros roster inv. unfold isLastAdmin.
    destruct (negb _); [done|]. by destruct (negb _).
  - intros roster. unfold isLastAdmin.
    destruct (negb _); [done|]. by destruct (negb _).
Qed.

(** *** The identifiers handed to the invite search *)

Lemma length_getMembersCollectiveIds roster :
  length (getMembersCollectiveIds roster) = length roster.
Proof. unfold getMembersCollectiveIds. apply List.length_map. Qed.

Lemma lookup_getMembersCollectiveIds roster (i : nat) :
  getMembersCollectiveIds roster !! i =
  (fun m => member m ≫= Account.id) <$> roster !! i.
Proof. unfold getMembersCollectiveIds. apply list_lookup_fmap. Qed.

(** No entry fetched by the query has a [member] field, and on such a
    roster every derived identifier is [undefined]. *)
Lemma getMembersCollectiveIds_no_member (roster : list Entry) :
  Forall (fun m => member m = None) roster ->
  getMembersCollectiveIds roster = replicate (length roster) None.
Proof.
  induction 1 as [|m roster Hm _ IH]; [done|].
  unfold getMembersCollectiveIds in *. simpl. by rewrite Hm, IH.
Qed.

(** C8, on the code. The derived sequence has one element per roster entry,
    in roster order, but the element is read from the field [member], which
    no fetched entry has: for the roster of one admin whose account has the
    identifier a1 and one invitation whose account has the identifier a2,
    the sequence is two times [undefined], while the cards of the same
    roster show the accounts a1 and a2. *)
Theorem collective_ids_miss_account :
  let roster := getMembersFromProps (mkData (Some [adminNode]) (Some [invitation])) in
  getMembersCollectiveIds roster = [None; None] /\
  map (fun m => memberCollective m ≫= Account.id) roster = [Some "a1"; Some "a2"].
Proof. split; reflexivity. Qed.

(** Scenario A of the specification: the only admin is targeted. *)
Lemma last_admin_flag_witness :
  nbAdmins [adminNode; omit_id invitation] = 1%nat /\
  flagSet (isLastAdmin (nbAdmins [adminNode; omit_id invitation]) (Some adminNode)) = true.
Proof.
  split; [reflexivity|].
  destruct last_admin_flag as [Hflag _].
  apply (Hflag [adminNode; omit_id invitation] adminNode).
  split; [reflexivity|]. split; [reflexivity|]. unfold idPresent. simpl. discriminate.
Defined.

(** ** The cards, the edit modal and the updates *)

(** X14. The roster is never empty, and it invents no entry: each of its
    entries is a fetched member, a fetched invitation without its
    identifier, or the empty placeholder. *)
Theorem roster_never_empty (data : Data) :
  getMembersFromProps data <> [] /\
  forall e, e ∈ getMembersFromProps data ->
    e ∈ orEmpty (account_members_nodes data) \/
    (exists inv, inv ∈ orEmpty (memberInvitations data) /\ e = omit_id inv) \/
    e = emptyObject.
Proof.
  destruct data as [ms invs]. unfold getMembersFromProps, orEmpty. simpl.
  destruct (length _ =? 0)%nat eqn:Hlen.
  - split; [done|]. intros e ->%list_elem_of_singleton. auto.
  - apply Nat.eqb_neq in Hlen. split.
    { intros E. by rewrite E in Hlen. }
    intros e [He|He]%elem_of_app.
    + destruct ms as [ms|]; simpl in *; [by left|].
      apply list_elem_of_singleton in He. auto.
    + change (map omit_id ?l) with (omit_id <$> l) in He.
      apply list_elem_of_fmap in He as (inv & -> & Hinv).
      destruct invs as [invs|]; simpl in *; [right; left; by exists inv|].
      apply list_elem_of_singleton in Hinv as ->. auto.
Qed.

(** X15. When the last-admin flag is set for an entry of the roster, that
    entry is the only admin the roster counts. *)
Theorem last_admin_is_unique (roster : list Entry) (target : Entry) :
  target ∈ roster ->
  flagSet (isLastAdmin (nbAdmins roster) (Some target)) = true ->
  forall e, e ∈ roster -> isAdminMember e = true -> e = target.
Proof.
  intros Htarget Hflag e He Hadmin.
  unfold isLastAdmin in Hflag. simpl in Hflag.
  destruct (Nat.eqb_spec (nbAdmins roster) 1) as [Hone|]; [|done]. simpl in Hflag.
  destruct (bool_decide_reflect (role target = Some roles_ADMIN)) as [Hrole|];
    [|done]. simpl in Hflag.
  assert (Htadmin : isAdminMember target = true).
  { unfold isAdminMember. by rewrite bool_decide_eq_true_2, Hflag. }
  unfold nbAdmins in Hone.
  assert (Hin : forall x, x ∈ roster -> isAdminMember x = true ->
                          In x (List.filter isAdminMember roster)).
  { intros x Hx Hax. apply List.filter_In. split; [by apply list_elem_of_In|done]. }
  pose proof (Hin _ Htarget Htadmin) as H1. pose proof (Hin _ He Hadmin) as H2.
  destruct (List.filter isAdminMember roster) as [|x [|y l]]; simpl in *; try lia.
  destruct H1 as [<-|[]], H2 as [<-|[]]. done.
Qed.

Lemma memberKey_present (m : Entry) (s : string) :
  id m = Some s -> s <> "" -> memberKey m = "member-" +:+ s.
Proof.
  intros Hid Hs. unfold memberKey, truthy. rewrite Hid.
  destruct (String.eqb_spec s ""); [done|]. done.
Qed.

Lemma memberKey_absent (m : Entry) :
  truthy (id m) = false ->
  memberKey m = "collective-" +:+ default "undefined" (memberAccount m ≫= Account.id).
Proof. intros Hid. unfold memberKey. by rewrite Hid. Qed.

(** X16. The key of a card tells members from invitations: two entries
    with the same key either both have an identifier, and then the same one,
    or both have none. *)
Theorem member_keys_separate (m1 m2 : Entry) :
  memberKey m1 = memberKey m2 ->
  (idPresent m1 <-> idPresent m2) /\ (idPresent m1 -> id m1 = id m2).
Proof.
  rewrite <- !truthy_idPresent. unfold memberKey.
  destruct (truthy (id m1)) eqn:H1, (truthy (id m2)) eqn:H2; simpl;
    intros Hkey; try discriminate Hkey.
  - split; [done|]. intros _.
    unfold truthy in H1, H2.
    destruct (id m1) as [s1|], (id m2) as [s2|]; try done.
    simpl in Hkey. injection Hkey as Hs. change (s1 = s2) in Hs. by rewrite Hs.
  - split; [done|]. done.
Qed.

(** X17. After a click on the edit button of card [i], with the roster
    holding an entry there, that entry is targeted, and the edit modal is on
    the cards of the same layout whose key is the key of that entry, and on
    no other card; the roster and the invite modal are as before. *)
Theorem edit_modal_on_clicked_card (st : State) (i : nat) (e : Entry) (k : string) :
  members st !! i = Some e ->
  let st' := handleShowModalChange "edit" true (Some i) (Some k) st in
  currentMember st' = Some e /\
  members st' = members st /\
  showInviteModal st' = showInviteModal st /\
  forall (e' : Entry) (k' : string),
    showsEditModal st' e' k' = true <-> memberKey e' = memberKey e /\ k' = k.
Proof.
  intros Hi st'. subst st'. unfold handleShowModalChange. simpl. rewrite Hi. simpl.
  split; [done|]. split; [done|]. split; [done|].
  intros e' k'. unfold showsEditModal. simpl.
  rewrite andb_true_iff, !bool_decide_eq_true.
  split; intros [Hkey Hlayout]; split; congruence.
Qed.

(** X18. A click on an index outside the roster keeps the entry targeted
    before; closing the edit modal takes it off every card; and showing or
    hiding the invite modal changes neither the targeted entry nor the cards
    that carry the edit modal. *)
Theorem modal_changes_frame (st : State) (value : bool)
    (idx : option nat) (k : option string) :
  (idx ≫= (fun i => members st !! i) = None ->
   currentMember (handleShowModalChange "edit" value idx k st) = currentMember st) /\
  (forall e' k', showsEditModal (handleShowModalChange "edit" false idx k st) e' k' = false) /\
  (currentMember (handleShowModalChange "invite" value idx k st) = currentMember st /\
   forall e' k',
     showsEditModal (handleShowModalChange "invite" value idx k st) e' k' =
     showsEditModal st e' k').
Proof.
  unfold handleShowModalChange. simpl. split; [|split].
  - by intros ->.
  - intros e' k'. unfold showsEditModal.
    by destruct (idx ≫= _).
  - by split.
Qed.

(** X19. After a click on the edit button of card [i] of the roster, the
    last-admin flag handed to the modal is set exactly when the roster counts
    one admin and the entry of that card is an admin with an identifier. *)
Theorem last_admin_after_click (st : State) (i : nat) (e : Entry)
    (value : bool) (k : option string) :
  members st !! i = Some e ->
  flagSet (lastAdminProp (handleShowModalChange "edit" value (Some i) k st)) = true <->
  nbAdmins (members st) = 1%nat /\ isAdminMember e = true.
Proof.
  intros Hi. unfold lastAdminProp, handleShowModalChange. simpl. rewrite Hi. simpl.
  unfold isLastAdmin, isAdminMember. simpl.
  destruct (Nat.eqb_spec (nbAdmins (members st)) 1); simpl;
    [|split; [done|by intros [? _]]].
  destruct (bool_decide (role e = Some roles_ADMIN)); simpl;
    (split; [by intros ?; split|by intros [_ ?]]).
Qed.

Lemma componentDidUpdate_frame props oldProps st :
  currentMember (componentDidUpdate props oldProps st) = currentMember st /\
  currentMemberKey (componentDidUpdate props oldProps st) = currentMemberKey st.
Proof. unfold componentDidUpdate. by destruct (_ || _). Qed.

(** X20. The roster follows the props: if the arrays of the props were not
    changed in place and the roster in the state was built from the old
    props, then after [componentDidUpdate] the roster is the one built from
    the new props. *)
Theorem roster_follows_props (props oldProps : Props) (st : State) :
  unchangedInPlace props oldProps ->
  members st = getMembersFromProps (data oldProps) ->
  members (componentDidUpdate props oldProps st) = getMembersFromProps (data props).
Proof.
  intros [Hm Hi] Hst. unfold componentDidUpdate.
  destruct (bool_decide_reflect (invitationsRef props = invitationsRef oldProps)) as [Ei|];
    [|done].
  destruct (bool_decide_reflect (membersRef props = membersRef oldProps)) as [Em|];
    [|done].
  simpl. rewrite Hst. unfold getMembersFromProps. by rewrite (Hm Em), (Hi Ei).
Qed.

(** X21. Through any sequence of clicks and updates from the constructor's
    state, the key kept in the state is the key of the targeted entry, and
    there is none while no entry is targeted. *)
Theorem key_matches_target (data0 : Data) (events : list Event) :
  currentMemberKey (run data0 events) = memberKey <$> currentMember (run data0 events).
Proof.
  unfold run.
  assert (Hinv : forall st,
             currentMemberKey st = memberKey <$> currentMember st ->
             currentMemberKey (foldl applyEvent st events) =
             memberKey <$> currentMember (foldl applyEvent st events)).
  { induction events as [|ev events IH]; intros st Hst; [done|].
    simpl. apply IH. destruct ev as [modal value idx k|props oldProps]; simpl.
    - unfold handleShowModalChange.
      destruct (String.eqb modal "edit"), (String.eqb modal "invite");
        try destruct (idx ≫= _); done.
    - by destruct (componentDidUpdate_frame props oldProps st) as [-> ->]. }
  by apply Hinv.
Qed.

(** *** The statements above on the sample inputs *)

Lemma roster_never_empty_witness :
  omit_id invitation ∈ getMembersFromProps sampleData /\
  (omit_id invitation ∈ orEmpty (account_members_nodes sampleData) \/
   (exists inv, inv ∈ orEmpty (memberInvitations sampleData) /\
                omit_id invitation = omit_id inv) \/
   omit_id invitation = emptyObject).
Proof.
  assert (Hin : omit_id invitation ∈ getMembersFromProps sampleData).
  { right. left. }
  split; [exact Hin|].
  exact (proj2 (roster_never_empty sampleData) (omit_id invitation) Hin).
Defined.

Lemma last_admin_is_unique_witness :
  adminNode ∈ getMembersFromProps sampleData /\
  flagSet (isLastAdmin (nbAdmins (getMembersFromProps sampleData)) (Some adminNode)) = true /\
  (isAdminMember adminNode = true -> adminNode = adminNode).
Proof.
  assert (Hin : adminNode ∈ getMembersFromProps sampleData) by left.
  split; [exact Hin|]. split; [reflexivity|].
  exact (last_admin_is_unique (getMembersFromProps sampleData) adminNode Hin eq_refl
           adminNode Hin).
Defined.

Lemma member_keys_separate_witness :
  memberKey adminNode = "member-m1" /\
  memberKey (omit_id invitation) = "collective-a2" /\
  (idPresent adminNode <-> idPresent adminNode).
Proof.
  split; [reflexivity|]. split; [reflexivity|].
  exact (proj1 (member_keys_separate adminNode adminNode eq_refl)).
Defined.

Lemma edit_modal_on_clicked_card_witness :
  let st := initialState sampleData in
  let st' := handleShowModalChange "edit" true (Some 1%nat) (Some "hide-xs-sm") st in
  members st !! 1%nat = Some (omit_id invitation) /\
  currentMember st' = Some (omit_id invitation) /\
  showsEditModal st' (omit_id invitation) "hide-xs-sm" = true.
Proof.
  intros st st'. split; [reflexivity|].
  destruct (edit_modal_on_clicked_card st 1 (omit_id invitation) "hide-xs-sm" eq_refl)
    as (Htarget & _ & _ & Hcards).
  split; [exact Htarget|]. by apply Hcards.
Defined.

Lemma modal_changes_frame_witness :
  let st := handleShowModalChange "edit" true (Some 0%nat) (Some "hide-xs-sm")
              (initialState sampleData) in
  Some 7%nat ≫= (fun i => members st !! i) = None /\
  currentMember (handleShowModalChange "edit" true (Some 7%nat) (Some "hide-xs-sm") st)
  = Some adminNode.
Proof.
  intros st. split; [reflexivity|].
  exact (proj1 (modal_changes_frame st true (Some 7%nat) (Some "hide-xs-sm")) eq_refl).
Defined.

Lemma last_admin_after_click_witness :
  let st := initialState sampleData in
  members st !! 0%nat = Some adminNode /\
  nbAdmins (members st) = 1%nat /\
  flagSet (lastAdminProp
             (handleShowModalChange "edit" true (Some 0%nat) (Some "hide-xs-sm") st)) = true.
Proof.
  intros st. split; [reflexivity|]. split; [reflexivity|].
  apply (last_admin_after_click st 0 adminNode true (Some "hide-xs-sm") eq_refl).
  split; reflexivity.
Defined.

Lemma roster_follows_props_witness :
  unchangedInPlace refetchedProps sampleProps /\
  members (componentDidUpdate refetchedProps sampleProps (initialState sampleData)) =
  [omit_id invitation].
Proof.
  assert (Hsame : unchangedInPlace refetchedProps sampleProps).
  { split; [discriminate|reflexivity]. }
  split; [exact Hsame|].
  exact (roster_follows_props refetchedProps sampleProps (initialState sampleData)
           Hsame eq_refl).
Defined.

End MembersFacts.
